(** * PersAI explorer: the turn-stream reducer and its driver

    A shallow embedding of [PersaiExplorer.tsx] (the functions
    [updateChunk], [addToolResponse], [addUserRequest],
    [updateMessagesFromChunk] and the [handleSubmit] callback) together with
    the message types of [types.ts], and the properties of the message store
    that follow from them.

    Conventions of the embedding:
    - a JavaScript value that may be [undefined] (or [null]) is an [option];
      this includes the [call_id] of a tool call, which its type declares
      but which the chunks of test-utils.tsx leave out;
    - [Date.now()] is an explicit argument, in milliseconds;
    - an array is a [list], read with [!!] and written with [<[i:=x]>];
    - a function that may throw returns a [Js] completion. *)

From Stdlib Require Import ZArith String Ascii DecimalString DecimalNat DecimalZ.
From stdpp Require Import base list strings gmap.

(** ** JavaScript values *)

(** Completion of a call: it returns, or a property of [undefined] was read. *)
Inductive Js (A : Type) : Type :=
  | Return (a : A)
  | TypeError.
Arguments Return {A} a.
Arguments TypeError {A}.

(** [String(v)] for a value that is a string or [undefined]. *)
Definition js_str (v : option string) : string :=
  match v with
  | Some s => s
  | None => "undefined"
  end.

(** [a + b] where at least one operand is a string. *)
Definition js_plus (a b : option string) : string := js_str a +:+ js_str b.

(** Truthiness of a value that is a string or [undefined]: the empty string
    and [undefined] are falsy. *)
Definition truthy (v : option string) : bool :=
  match v with
  | Some s => bool_decide (s ≠ "")
  | None => false
  end.

(** [v === "tag"] for a property that may be absent or not a string. *)
Definition tag_is (v : option string) (tag : string) : bool :=
  match v with
  | Some s => bool_decide (s = tag)
  | None => false
  end.

(** [Array.prototype.findIndex]: the first index satisfying [p], or [-1]. *)
Fixpoint findIndex_from {A : Type} (p : A → bool) (l : list A) (index : Z) : Z :=
  match l with
  | [] => (-1)%Z
  | x :: l' => if p x then index else findIndex_from p l' (index + 1)%Z
  end.

Definition findIndex {A : Type} (p : A → bool) (l : list A) : Z :=
  findIndex_from p l 0%Z.

(** [Array.prototype.reduce] with the three-argument callback
    [(accumulator, element, index)]. *)
Fixpoint reduce_from {A B : Type} (f : B → A → nat → B) (acc : B) (index : nat)
    (l : list A) : B :=
  match l with
  | [] => acc
  | x :: l' => reduce_from f (f acc x index) (S index) l'
  end.

Definition Array_reduce {A B : Type} (f : B → A → nat → B) (init : B) (l : list A) : B :=
  reduce_from f init 0 l.

(** [Math.floor(Date.now() / 1000)] for a clock reading in milliseconds. *)
Definition seconds (now : Z) : Z := (now / 1000)%Z.

(** ** types.ts *)

Inductive Role : Type := user | agent | system | tool.

Inductive CallRole : Type := call_user | call_tool | call_system | call_assistant.

(** [ToolCall].  [callId] is copied from the [call_id] of the chunk and is
    [undefined] when the chunk has none. *)
Record ToolCall : Type := {
  call_role : CallRole;
  result : option string;
  callId : option string;
  toolName : string;
  args : gmap string string;
}.

Record ChatMessage : Type := {
  role : Role;
  content : option string;
  createdAt : Z;
  toolCall : option ToolCall;
}.

#[global] Instance Role_eq_dec : EqDecision Role.
Proof. solve_decision. Defined.

(** ** The chunk shapes of llama-stack-client that the reducer reads *)

Module Llama.

(** A tool call as it arrives; [call_id] is [None] when the object has no
    such property. *)
Record ToolCall : Type := {
  call_id : option string;
  tool_name : string;
  arguments : gmap string string;
}.

Record ToolResponse : Type := {
  response_call_id : option string;
  response_tool_name : string;
  response_content : string;
}.

(** [payload.delta]: a tagged object; the [text] variant carries [text]. *)
Record Delta : Type := {
  type : option string;
  text : option string;
}.

(** [payload.step_details]; [ToolExecutionStep] carries the two arrays. *)
Record StepDetails : Type := {
  step_type : option string;
  tool_calls : option (list ToolCall);
  tool_responses : option (list ToolResponse);
}.

Record OutputMessage : Type := {
  message_content : string;
}.

Record Turn : Type := {
  output_message : option OutputMessage;
}.

Record Payload : Type := {
  event_type : option string;
  delta : option Delta;
  step_details : option StepDetails;
  turn : option Turn;
}.

Record Event : Type := {
  payload : option Payload;
}.

Record AgentTurnResponseStreamChunk : Type := {
  event : option Event;
}.

End Llama.

(** ** PersaiExplorer.tsx: the reducer *)

(** The second argument of [updateChunk]: [{ delta?: string; full?: string }]. *)
Record ChunkUpdate : Type := {
  delta : option string;
  full : option string;
}.

Definition updateMessage (u : ChunkUpdate) (current : option string) : option string :=
  if truthy (delta u) then Some (js_plus current (delta u)) else full u.

Definition updateChunk (now : Z) (prevMessages : list ChatMessage) (u : ChunkUpdate)
    : list ChatMessage :=
  let updatedMessages := prevMessages in
  let newMessage :=
    {| role := agent;
       content := updateMessage u (Some "");
       createdAt := seconds now;
       toolCall := None |} in
  match prevMessages !! (length prevMessages - 1) with
  | Some lastMessage =>
      if bool_decide (role lastMessage = agent) then
        let updatedMessage :=
          {| role := role lastMessage;
             content := updateMessage u (content lastMessage);
             createdAt := createdAt lastMessage;
             toolCall := toolCall lastMessage |} in
        <[length updatedMessages - 1 := updatedMessage]> updatedMessages
      else updatedMessages ++ [newMessage]
  | None => updatedMessages ++ [newMessage]
  end.

(** [msg.toolCall?.callId === toolCallId].  The left-hand side is
    [undefined] for a message without [toolCall] and for a [toolCall] without
    [callId]; the right-hand side is [undefined] for a call without
    [call_id], and [undefined === undefined] holds. *)
Definition has_callId (toolCallId : option string) (msg : ChatMessage) : bool :=
  bool_decide (toolCall msg ≫= callId = toolCallId).

(** The message built by [addToolResponse] before it looks at the store. *)
Definition toolMessage (now : Z) (toolCall : Llama.ToolCall)
    (toolResponse : option Llama.ToolResponse) : ChatMessage :=
  {| role := tool;
     content := Llama.response_content <$> toolResponse;
     createdAt := seconds now;
     toolCall := Some
       {| call_role := call_tool;
          callId := Llama.call_id toolCall;
          toolName := Llama.tool_name toolCall;
          args := Llama.arguments toolCall;
          result := Llama.response_content <$> toolResponse |} |}.

Definition addToolResponse (now : Z) (prevMessages : list ChatMessage)
    (toolCall : Llama.ToolCall) (toolResponse : option Llama.ToolResponse)
    : list ChatMessage :=
  let toolCallId := Llama.call_id toolCall in
  let existingMessageIndex := findIndex (has_callId toolCallId) prevMessages in
  if bool_decide (existingMessageIndex ≠ (-1)%Z) then
    <[Z.to_nat existingMessageIndex := toolMessage now toolCall toolResponse]> prevMessages
  else prevMessages ++ [toolMessage now toolCall toolResponse].

Definition addUserRequest (now : Z) (prevMessages : list ChatMessage)
    (message : option string) : list ChatMessage :=
  prevMessages ++
    [{| role := user; content := message; createdAt := seconds now; toolCall := None |}].

(** [updateMessagesFromChunk].  [clock k] is the value of the [k]-th call of
    [Date.now()] made while the chunk is folded in: [updateChunk] makes at
    most one call, the tool-execution branch one per tool call. *)
Definition updateMessagesFromChunk (clock : nat → Z) (prevMessages : list ChatMessage)
    (chunk : Llama.AgentTurnResponseStreamChunk) : Js (list ChatMessage) :=
  match Llama.event chunk with
  | None => TypeError
  | Some event =>
  match Llama.payload event with
  | None => TypeError
  | Some payload =>
    let event_type := Llama.event_type payload in
    if tag_is event_type "turn_start" then Return prevMessages
    else if tag_is event_type "step_start" then Return prevMessages
    else if tag_is event_type "step_progress" then
      match Llama.delta payload with
      | None => TypeError
      | Some d =>
          if tag_is (Llama.type d) "text" then
            Return (updateChunk (clock 0) prevMessages
                      {| delta := Llama.text d; full := None |})
          else Return prevMessages
      end
    else if tag_is event_type "step_complete" then
      match Llama.step_details payload with
      | None => TypeError
      | Some toolStep =>
          if tag_is (Llama.step_type toolStep) "tool_execution" then
            match Llama.tool_calls toolStep with
            | None => TypeError
            | Some tool_calls =>
                Return (Array_reduce
                  (fun prevMessages toolCall index =>
                     let toolResponse := Llama.tool_responses toolStep ≫= (.!! index) in
                     addToolResponse (clock index) prevMessages toolCall toolResponse)
                  prevMessages tool_calls)
            end
          else Return prevMessages
      end
    else if tag_is event_type "turn_complete" then
      match Llama.turn payload with
      | None => TypeError
      | Some turn =>
          match Llama.output_message turn with
          | Some output_message =>
              Return (updateChunk (clock 0) prevMessages
                        {| delta := None;
                           full := Some (Llama.message_content output_message) |})
          | None => Return prevMessages
          end
      end
    else if tag_is event_type "turn_awaiting_input" then Return prevMessages
    else Return prevMessages
  end
  end.

(** ** Chunks of the event model

    One constructor per shape of chunk that the reducer distinguishes.
    [turnStart], [textProgress] and [turnComplete] are the helpers of the same
    name of test-utils.tsx; [toolExecution] takes the two arrays themselves
    (the helper of test-utils.tsx, which builds one call and one response,
    neither with a [call_id], is [testUtils.toolExecution] below). *)

Module streamChunks.

Definition of_payload (p : Llama.Payload) : Llama.AgentTurnResponseStreamChunk :=
  {| Llama.event := Some {| Llama.payload := Some p |} |}.

(** A chunk that carries nothing but its [event_type]. *)
Definition bare (event_type : option string) : Llama.AgentTurnResponseStreamChunk :=
  of_payload
    {| Llama.event_type := event_type; Llama.delta := None;
       Llama.step_details := None; Llama.turn := None |}.

Definition turnStart : Llama.AgentTurnResponseStreamChunk := bare (Some "turn_start").

Definition stepProgress (d : Llama.Delta) : Llama.AgentTurnResponseStreamChunk :=
  of_payload
    {| Llama.event_type := Some "step_progress"; Llama.delta := Some d;
       Llama.step_details := None; Llama.turn := None |}.

Definition textProgress (text : string) : Llama.AgentTurnResponseStreamChunk :=
  stepProgress {| Llama.type := Some "text"; Llama.text := Some text |}.

Definition stepComplete (details : Llama.StepDetails)
    : Llama.AgentTurnResponseStreamChunk :=
  of_payload
    {| Llama.event_type := Some "step_complete"; Llama.delta := None;
       Llama.step_details := Some details; Llama.turn := None |}.

Definition toolExecution (tool_calls : list Llama.ToolCall)
    (tool_responses : list Llama.ToolResponse) : Llama.AgentTurnResponseStreamChunk :=
  stepComplete
    {| Llama.step_type := Some "tool_execution";
       Llama.tool_calls := Some tool_calls;
       Llama.tool_responses := Some tool_responses |}.

Definition turnCompleteWith (output_message : option Llama.OutputMessage)
    : Llama.AgentTurnResponseStreamChunk :=
  of_payload
    {| Llama.event_type := Some "turn_complete"; Llama.delta := None;
       Llama.step_details := None;
       Llama.turn := Some {| Llama.output_message := output_message |} |}.

Definition turnComplete (message : string) : Llama.AgentTurnResponseStreamChunk :=
  turnCompleteWith (Some {| Llama.message_content := message |}).

End streamChunks.

(** [chunk.event.payload], when both property reads succeed. *)
Definition payload_of (chunk : Llama.AgentTurnResponseStreamChunk) : option Llama.Payload :=
  Llama.event chunk ≫= Llama.payload.

(** The three event types whose branch of the switch reads further fields. *)
Definition actionable_tag (event_type : option string) : bool :=
  tag_is event_type "step_progress" || tag_is event_type "step_complete"
  || tag_is event_type "turn_complete".

(** The event types of the closed set. *)
Definition recognized_tag (event_type : option string) : bool :=
  tag_is event_type "turn_start" || tag_is event_type "step_start"
  || tag_is event_type "turn_awaiting_input" || actionable_tag event_type.

(** Every object that the switch dereferences for this chunk is present:
    [event], [payload], and the [delta], [step_details], [tool_calls] or
    [turn] that the branch of the event type reads a property of.  (In
    JavaScript a present [tool_calls] can still fail to be an array of
    objects; [Llama.StepDetails] holds arrays of calls only, so a chunk that
    is not [dereferenceable] raises, and nothing is said about the
    converse.) *)
Definition dereferenceable (chunk : Llama.AgentTurnResponseStreamChunk) : bool :=
  match payload_of chunk with
  | None => false
  | Some p =>
      if tag_is (Llama.event_type p) "step_progress" then
        bool_decide (is_Some (Llama.delta p))
      else if tag_is (Llama.event_type p) "step_complete" then
        match Llama.step_details p with
        | None => false
        | Some details =>
            negb (tag_is (Llama.step_type details) "tool_execution")
            || bool_decide (is_Some (Llama.tool_calls details))
        end
      else if tag_is (Llama.event_type p) "turn_complete" then
        bool_decide (is_Some (Llama.turn p))
      else true
  end.

(** A chunk of the event model: one event type of the closed set, with the
    fields of its variant.  A chunk that is not well formed is malformed. *)
Definition well_formed (chunk : Llama.AgentTurnResponseStreamChunk) : bool :=
  match payload_of chunk with
  | None => false
  | Some p => recognized_tag (Llama.event_type p) && dereferenceable chunk
  end.

(** ** The store invariants of the data model *)

(** The call identifiers that the messages of the store carry, in store
    order (a message without [toolCall], or whose [toolCall] has no [callId],
    contributes none). *)
Definition callIds (messages : list ChatMessage) : list string :=
  omap (λ m, toolCall m ≫= callId) messages.

Definition one_tool_per_callId (messages : list ChatMessage) : Prop :=
  NoDup (callIds messages).

(** The messages that carry a [toolCall] are exactly those of role [tool]. *)
Definition tool_messages_carry_calls (messages : list ChatMessage) : Prop :=
  Forall (λ m, is_Some (toolCall m) ↔ role m = tool) messages.

Definition createdAt_monotone (messages : list ChatMessage) : Prop :=
  ∀ i j mi mj, i < j → messages !! i = Some mi → messages !! j = Some mj →
    (createdAt mi ≤ createdAt mj)%Z.

(** Monotone except for the messages that carry a [toolCall]: those are
    stamped again by every in-place update. *)
Definition createdAt_monotone_but_tools (messages : list ChatMessage) : Prop :=
  ∀ i j mi mj, i < j → messages !! i = Some mi → messages !! j = Some mj →
    toolCall mi = None → (createdAt mi ≤ createdAt mj)%Z.

Definition stamped_by (now : Z) (messages : list ChatMessage) : Prop :=
  ∀ m, m ∈ messages → (createdAt m ≤ seconds now)%Z.

(** The readings of a clock that never runs backwards, all taken between
    the readings [t] and [t']. *)
Definition clock_between (t t' : Z) (clock : nat → Z) : Prop :=
  (∀ k, (t ≤ clock k ≤ t')%Z) ∧ (∀ i j, i ≤ j → (clock i ≤ clock j)%Z).

(** The stores the component can hold when the clock last read [t]: it starts
    empty, [handleSubmit] appends the user's message, and each chunk of the
    stream is folded in. *)
Inductive reachable : Z → list ChatMessage → Prop :=
  | reachable_initial t : reachable t []
  | reachable_submit t t' messages message :
      reachable t messages → (t ≤ t')%Z →
      reachable t' (addUserRequest t' messages message)
  | reachable_chunk t t' clock messages chunk messages' :
      reachable t messages → clock_between t t' clock →
      updateMessagesFromChunk clock messages chunk = Return messages' →
      reachable t' messages'.

(** A message without its timestamp. *)
Definition untimed (m : ChatMessage) : Role * option string * option ToolCall :=
  (role m, content m, toolCall m).

(** ** The tool-execution step, in the words of the event model *)

(** The call at position [i] with the response at position [i], if any. *)
Fixpoint pair_by_position (tool_calls : list Llama.ToolCall)
    (tool_responses : list Llama.ToolResponse)
    : list (Llama.ToolCall * option Llama.ToolResponse) :=
  match tool_calls, tool_responses with
  | [], _ => []
  | c :: cs, [] => (c, None) :: pair_by_position cs []
  | c :: cs, r :: rs => (c, Some r) :: pair_by_position cs rs
  end.

(** Upsert the pairs one after the other; the [k]-th upsert happens at the
    [k]-th reading of the clock, counted from [first]. *)
Fixpoint upsert_pairs (clock : nat → Z) (first : nat) (messages : list ChatMessage)
    (pairs : list (Llama.ToolCall * option Llama.ToolResponse)) : list ChatMessage :=
  match pairs with
  | [] => messages
  | (c, r) :: rest =>
      upsert_pairs clock (S first) (addToolResponse (clock first) messages c r) rest
  end.

(** ** PersaiExplorer.tsx: the component state and [handleSubmit] *)

(** A value caught by [catch (error)]. *)
Inductive Thrown : Type :=
  | ErrorInstance (message : string)
  | OtherValue (message : option string).


(** A chunk as the [for await] loop receives it, with the readings of the
    clock while it is folded into the store. *)
Record Arrival : Type := {
  clock_at : nat → Z;
  chunk : Llama.AgentTurnResponseStreamChunk;
}.

(** The stream returned by [turnCreate]: the chunks it yields, and then the
    value its iterator raises, if it does not finish normally. *)
Record Stream : Type := {
  arrivals : list Arrival;
  raises : option Thrown;
}.

(** A request issued through [Client]. *)
Inductive Request : Type :=
  | sessionCreate_request
  | turnCreate_request (sessionId datasourcePath : string) (message : option string).

#[global] Instance Request_eq_dec : EqDecision Request.
Proof. solve_decision. Defined.

(** What one run of [handleSubmit] meets outside the component. *)
Record Submission : Type := {
  persaiUrl : option string;
  datasourcePath : option string;
  submitted_at : Z;
  sessionCreate : Thrown + string;
  turnCreate : Thrown + Stream;
}.

(** The [useState] cells of [PersaiExplorer], and the requests issued so far. *)
Record Explorer : Type := {
  queryText : option string;
  sessionId : option string;
  messages : list ChatMessage;
  isStreaming : bool;
  error : option string;
  requests : list Request;
}.

Definition initial : Explorer :=
  {| queryText := None; sessionId := None; messages := []; isStreaming := false;
     error := None; requests := [] |}.

Definition setQueryText (v : option string) (st : Explorer) : Explorer :=
  {| queryText := v; sessionId := sessionId st; messages := messages st;
     isStreaming := isStreaming st; error := error st; requests := requests st |}.

Definition setSessionId (v : option string) (st : Explorer) : Explorer :=
  {| queryText := queryText st; sessionId := v; messages := messages st;
     isStreaming := isStreaming st; error := error st; requests := requests st |}.

Definition setMessages (v : list ChatMessage) (st : Explorer) : Explorer :=
  {| queryText := queryText st; sessionId := sessionId st; messages := v;
     isStreaming := isStreaming st; error := error st; requests := requests st |}.

Definition setIsStreaming (v : bool) (st : Explorer) : Explorer :=
  {| queryText := queryText st; sessionId := sessionId st; messages := messages st;
     isStreaming := v; error := error st; requests := requests st |}.

Definition setError (v : option string) (st : Explorer) : Explorer :=
  {| queryText := queryText st; sessionId := sessionId st; messages := messages st;
     isStreaming := isStreaming st; error := v; requests := requests st |}.

Definition issue (r : Request) (st : Explorer) : Explorer :=
  {| queryText := queryText st; sessionId := sessionId st; messages := messages st;
     isStreaming := isStreaming st; error := error st; requests := requests st ++ [r] |}.

(** The [for await] loop: every chunk goes through [updateMessagesFromChunk]
    in arrival order. *)
Fixpoint consume (response : list Arrival) (messages : list ChatMessage)
    : Js (list ChatMessage) :=
  match response with
  | [] => Return messages
  | a :: rest =>
      match updateMessagesFromChunk (clock_at a) messages (chunk a) with
      | Return messages' => consume rest messages'
      | TypeError => TypeError
      end
  end.

(** [error instanceof Error ? error.message : "An unexpected error occurred"] *)
Definition surfaced (e : Thrown) : string :=
  match e with
  | ErrorInstance message => message
  | OtherValue _ => "An unexpected error occurred"
  end.

(** The [catch] block. *)
Definition caught (e : Thrown) (st : Explorer) : Explorer :=
  setIsStreaming false (setError (Some (surfaced e)) st).

(** [handleSubmit].  [persaiUrl sub] is the value of the [persai_url]
    variable, and [datasourcePath sub] the [datasourceUrl] of the client that
    [await datastore!.getDatasourceClient(datasource)] resolves with ([None]
    when it resolves with no client, or with one without that option).  The
    two datastore calls of lines 245 to 247 are made by every run that passes
    the first check; they change no cell of the component, and [requests]
    records the requests issued through [Client] only.  A run in which the
    datastore lookup itself is rejected ends before the [try] block and is no
    [Submission].  A [TypeError] raised by the reducer inside a state updater
    is raised while React renders, outside the [try] block: the callback then
    does not settle the component. *)
Definition handleSubmit (st : Explorer) (sub : Submission) : Js Explorer :=
  if negb (truthy (persaiUrl sub)) then
    Return (setError (Some
      ("Could not determine PersAI backend url ('persai_url' global variable is missing). "
       +:+ "Was the plugin installed properly?")) st)
  else if negb (truthy (datasourcePath sub)) then
    Return (setError (Some "Could not determine the datasource path") st)
  else
    let datasourcePath := js_str (datasourcePath sub) in
    let message := queryText st in
    let started :=
      setIsStreaming true (setQueryText (Some "")
        (setMessages (addUserRequest (submitted_at sub) (messages st) (queryText st))
           (setError None st))) in
    let session : (Thrown + string) * Explorer :=
      if negb (truthy (sessionId st)) then
        match sessionCreate sub with
        | inl e => (inl e, issue sessionCreate_request started)
        | inr session_id =>
            (inr session_id,
             setSessionId (Some session_id) (issue sessionCreate_request started))
        end
      else (inr (js_str (sessionId st)), started) in
    match session with
    | (inl e, st1) => Return (caught e st1)
    | (inr newSessionId, st1) =>
        let st2 := issue (turnCreate_request newSessionId datasourcePath message) st1 in
        match turnCreate sub with
        | inl e => Return (caught e st2)
        | inr response =>
            match consume (arrivals response) (messages st2) with
            | TypeError => TypeError
            | Return messages' =>
                match raises response with
                | Some e => Return (caught e (setMessages messages' st2))
                | None => Return (setIsStreaming false (setMessages messages' st2))
                end
            end
        end
    end.

(** The user types [typed] (when given) and submits; one entry per turn. *)
Fixpoint submissions (st : Explorer) (turns : list (option string * Submission))
    : Js Explorer :=
  match turns with
  | [] => Return st
  | (typed, sub) :: rest =>
      let st := match typed with Some q => setQueryText (Some q) st | None => st end in
      match handleSubmit st sub with
      | Return st' => submissions st' rest
      | TypeError => TypeError
      end
  end.

Definition session_creations (rs : list Request) : nat :=
  length (filter (λ r, r = sessionCreate_request) rs).

Definition turn_creations (rs : list Request) : nat :=
  length (filter (λ r, r ≠ sessionCreate_request) rs).

(** The submission failed: the [catch] block left an error message. *)
Definition failed (st : Explorer) : Prop := is_Some (error st).

(** ** The text rule, in the words of the reducer's contract *)

(** The last message of the store, when it has role [agent]. *)
Definition last_agent (messages : list ChatMessage) : option ChatMessage :=
  match last messages with
  | Some m => if bool_decide (role m = agent) then Some m else None
  | None => None
  end.

(** A copy of [m] with another content. *)
Definition with_content (m : ChatMessage) (c : option string) : ChatMessage :=
  {| role := role m; content := c; createdAt := createdAt m; toolCall := toolCall m |}.

(** The store with its last message replaced. *)
Definition replace_last (messages : list ChatMessage) (m : ChatMessage)
    : list ChatMessage :=
  take (length messages - 1) messages ++ [m].

Definition agent_message (now : Z) (c : option string) : ChatMessage :=
  {| role := agent; content := c; createdAt := seconds now; toolCall := None |}.

(** Append-to-last-agent-or-create-new: a trailing agent message gets the
    content [extended old]; otherwise an agent message with content [fresh]
    is appended. *)
Definition text_rule (now : Z) (messages : list ChatMessage)
    (extended : option string → option string) (fresh : option string)
    : list ChatMessage :=
  match last_agent messages with
  | Some m => replace_last messages (with_content m (extended (content m)))
  | None => messages ++ [agent_message now fresh]
  end.

(** The chunks that the contract lists as carrying no actionable state. *)
Definition no_actionable_state (chunk : Llama.AgentTurnResponseStreamChunk) : Prop :=
  (∃ p, payload_of chunk = Some p ∧
        (tag_is (Llama.event_type p) "turn_start"
         || tag_is (Llama.event_type p) "step_start"
         || tag_is (Llama.event_type p) "turn_awaiting_input") = true)
  ∨ (∃ p, payload_of chunk = Some p ∧ recognized_tag (Llama.event_type p) = false)
  ∨ well_formed chunk = false.

(** The [call_id] of each call that the chunk upserts, in order ([None] for a
    call without [call_id]). *)
Definition upserted_calls (chunk : Llama.AgentTurnResponseStreamChunk)
    : list (option string) :=
  match payload_of chunk with
  | Some p =>
      if tag_is (Llama.event_type p) "step_complete" then
        match Llama.step_details p with
        | Some details =>
            if tag_is (Llama.step_type details) "tool_execution" then
              Llama.call_id <$> default [] (Llama.tool_calls details)
            else []
        | None => []
        end
      else []
  | None => []
  end.

(** Every tool call that the chunk upserts carries a [call_id], as the type
    [ToolCall] of llama-stack-client requires. *)
Definition calls_identified (chunk : Llama.AgentTurnResponseStreamChunk) : Prop :=
  Forall is_Some (upserted_calls chunk).

(** Every tool call of every chunk of the stream carries a [call_id]. *)
Definition stream_identified (response : list Arrival) : Prop :=
  Forall (λ a, calls_identified (chunk a)) response.

(** The chunks on which the reducer acts: a text delta, a tool execution,
    and a [turn_complete] that carries an output message. *)
Definition acts_on (chunk : Llama.AgentTurnResponseStreamChunk) : bool :=
  match payload_of chunk with
  | None => false
  | Some p =>
      if tag_is (Llama.event_type p) "step_progress" then
        match Llama.delta p with
        | Some d => tag_is (Llama.type d) "text"
        | None => false
        end
      else if tag_is (Llama.event_type p) "step_complete" then
        match Llama.step_details p with
        | Some details => tag_is (Llama.step_type details) "tool_execution"
        | None => false
        end
      else if tag_is (Llama.event_type p) "turn_complete" then
        match Llama.turn p with
        | Some t => bool_decide (is_Some (Llama.output_message t))
        | None => false
        end
      else false
  end.

(** ** api.ts: what [Client] sends *)

Module Client.

Inductive Method : Type := POST | DELETE.

(** The arguments of [this.post] and [this.delete]: the path, the [message]
    of the body when there is a body, and the [stream] option. *)
Record Call : Type := {
  method : Method;
  path : string;
  body : option (option string);
  stream : bool;
}.

(** The characters that the application/x-www-form-urlencoded serializer of
    [URLSearchParams] leaves as they are: ASCII letters and digits and the
    four characters [*], [-], [.] and [_]. *)
Definition unreserved (c : ascii) : bool :=
  let n := N_of_ascii c in
  ((48 <=? n) && (n <=? 57) || (65 <=? n) && (n <=? 90) || (97 <=? n) && (n <=? 122)
   || (n =? 42) || (n =? 45) || (n =? 46) || (n =? 95))%N.

(** An upper-case hexadecimal digit. *)
Definition hex_digit (n : N) : ascii :=
  ascii_of_N (if (n <? 10)%N then 48 + n else 55 + n).

Definition percent_encode (c : ascii) : string :=
  String "%" (String (hex_digit (N_of_ascii c / 16)) (String (hex_digit (N_of_ascii c mod 16)) "")).

(** A JavaScript string is a sequence of UTF-16 code units.  [URLSearchParams]
    converts each value to a USVString first: a surrogate pair becomes the
    code point it stands for, a surrogate without its partner becomes
    U+FFFD. *)
Definition high_surrogate (u : N) : bool := ((0xD800 <=? u) && (u <=? 0xDBFF))%N.

Definition low_surrogate (u : N) : bool := ((0xDC00 <=? u) && (u <=? 0xDFFF))%N.

Fixpoint USVString (units : list N) : list N :=
  match units with
  | [] => []
  | u :: rest =>
      if high_surrogate u then
        match rest with
        | v :: rest' =>
            if low_surrogate v then
              (0x10000 + (u - 0xD800) * 0x400 + (v - 0xDC00))%N :: USVString rest'
            else 0xFFFD%N :: USVString rest
        | [] => [0xFFFD%N]
        end
      else if low_surrogate u then 0xFFFD%N :: USVString rest
      else u :: USVString rest
  end.

(** The UTF-8 encoding of a code point. *)
Definition utf8 (scalar : N) : list N :=
  (if scalar <? 0x80 then [scalar]
   else if scalar <? 0x800 then [0xC0 + scalar / 0x40; 0x80 + scalar mod 0x40]
   else if scalar <? 0x10000 then
     [0xE0 + scalar / 0x1000; 0x80 + (scalar / 0x40) mod 0x40; 0x80 + scalar mod 0x40]
   else
     [0xF0 + scalar / 0x40000; 0x80 + (scalar / 0x1000) mod 0x40;
      0x80 + (scalar / 0x40) mod 0x40; 0x80 + scalar mod 0x40])%N.

(** The bytes that the serializer works on, for the JavaScript string with
    the code units [units]. *)
Definition bytes_of (units : list N) : string :=
  string_of_list_ascii (ascii_of_N <$> (USVString units ≫= utf8)).

(** The code units of a string of ASCII characters. *)
Definition code_units (s : string) : list N := N_of_ascii <$> list_ascii_of_string s.

(** The serializer, on the bytes of the value ([bytes_of]): a space becomes
    [+], an unreserved byte stays, any other byte is percent-encoded. *)
Fixpoint urlencoded (s : string) : string :=
  match s with
  | EmptyString => EmptyString
  | String c rest =>
      (if Ascii.eqb c " " then "+"
       else if unreserved c then String c ""
       else percent_encode c) +:+ urlencoded rest
  end.

(** [`${new URLSearchParams({ [name]: value })}`] *)
Definition URLSearchParams_toString (name value : string) : string :=
  urlencoded name +:+ "=" +:+ urlencoded value.

Definition sessionCreate : Call :=
  {| method := POST; path := "/session"; body := None; stream := false |}.

Definition sessionDelete (sessionId : string) : Call :=
  {| method := DELETE; path := "/session/" +:+ sessionId; body := None; stream := false |}.

(** [turnCreate]; [datasourcePath] is given by its bytes ([bytes_of]). *)
Definition turnCreate (sessionId datasourcePath : string) (message : option string) : Call :=
  let params := URLSearchParams_toString "datasource_path" datasourcePath in
  {| method := POST;
     path := "/session/" +:+ sessionId +:+ "/turn?" +:+ params;
     body := Some message;
     stream := true |}.

(** Reading a serialized value back, as the receiver of the request does:
    [+] is a space and [%XY] is the byte with hexadecimal digits [X], [Y]. *)
Definition hex_value (c : ascii) : N :=
  let n := N_of_ascii c in
  (if (48 <=? n) && (n <=? 57) then n - 48
   else if (65 <=? n) && (n <=? 70) then n - 55
   else if (97 <=? n) && (n <=? 102) then n - 87
   else 0)%N.

Fixpoint urldecoded (s : string) : string :=
  match s with
  | EmptyString => EmptyString
  | String c rest =>
      if Ascii.eqb c "+" then String " " (urldecoded rest)
      else if Ascii.eqb c "%" then
        match rest with
        | String a (String b rest') =>
            String (ascii_of_N (16 * hex_value a + hex_value b)) (urldecoded rest')
        | _ => EmptyString
        end
      else String c (urldecoded rest)
  end.

End Client.

(** Every character of the string satisfies [p]. *)
Fixpoint every_char (p : ascii → bool) (s : string) : bool :=
  match s with
  | EmptyString => true
  | String c rest => p c && every_char p rest
  end.

(** The characters a serialized value is made of. *)
Definition serialized_char (c : ascii) : bool :=
  Client.unreserved c || Ascii.eqb c "%" || Ascii.eqb c "+".

(** ** test-utils.tsx: [createStreamResponse] *)

Module testUtils.

(** [streamChunks.toolExecution(toolName, args, result)]: a tool execution
    with one call and one response, neither of which has a [call_id]. *)
Definition toolExecution (toolName : string) (args : gmap string string) (result : string)
    : Llama.AgentTurnResponseStreamChunk :=
  streamChunks.toolExecution
    [{| Llama.call_id := None; Llama.tool_name := toolName; Llama.arguments := args |}]
    [{| Llama.response_call_id := None; Llama.response_tool_name := toolName;
        Llama.response_content := result |}].

(** [next()] of the iterator of [createStreamResponse(chunks)].  The counter
    [index] belongs to the response, not to the iterator. *)
Definition next (chunks : list Llama.AgentTurnResponseStreamChunk) (index : nat)
    : option Llama.AgentTurnResponseStreamChunk * nat :=
  if bool_decide (index < length chunks) then (chunks !! index, S index)
  else (None, index).

(** [for await (const chunk of response)]: [next()] is called until it
    answers [done]; [fuel] bounds the number of calls.  The result is the
    chunks received and the counter left behind. *)
Fixpoint for_await (fuel : nat) (chunks : list Llama.AgentTurnResponseStreamChunk)
    (index : nat) : option (list Llama.AgentTurnResponseStreamChunk * nat) :=
  match fuel with
  | 0 => None
  | S fuel' =>
      match next chunks index with
      | (Some chunk, index') =>
          match for_await fuel' chunks index' with
          | Some (received, final) => Some (chunk :: received, final)
          | None => None
          end
      | (None, index') => Some ([], index')
      end
  end.

End testUtils.

(** ** components/ToolCall.tsx and components/Messages.tsx *)

Module Perses.

(** [DatasourceSelector] of @perses-dev/core. *)
Record DatasourceSelector : Type := {
  kind : string;
  name : option string;
}.

End Perses.

Module Components.

Definition ToolCallType : Type := ToolCall.

(** [TimeRangeValue]; a [Date] stands as the string it is constructed from. *)
Inductive TimeRangeValue : Type :=
  | AbsoluteTimeRange (start end_ : string)
  | RelativeTimeRange (pastDuration : string).

Record TimeSeriesToolProps : Type := {
  query : string;
  timeRange : TimeRangeValue;
  datasource : Perses.DatasourceSelector;
}.

(** An entry of the [definitions] that [TimeSeriesTool] hands to
    [DataQueriesProvider]. *)
Record QueryDefinition : Type := {
  definition_kind : string;
  definition_datasource : Perses.DatasourceSelector;
  definition_query : string;
}.

Definition TimeSeriesTool_definitions (props : TimeSeriesToolProps) : list QueryDefinition :=
  if bool_decide (query props ≠ "") then
    [{| definition_kind := "PrometheusTimeSeriesQuery";
        definition_datasource :=
          {| Perses.kind := Perses.kind (datasource props);
             Perses.name := Perses.name (datasource props) |};
        definition_query := query props |}]
  else [].

(** What [GenericToolCall] shows once expanded: the caption, the arguments
    when there are any, the result when it is truthy. *)
Record GenericSections : Type := {
  caption : string;
  arguments_shown : option (gmap string string);
  result_shown : option string;
}.

Definition GenericToolCall (toolCall : ToolCallType) : GenericSections :=
  {| caption := "Tool: " +:+ toolName toolCall;
     arguments_shown :=
       if bool_decide (0 < size (args toolCall)) then Some (args toolCall) else None;
     result_shown := if truthy (result toolCall) then result toolCall else None |}.

(** An exception raised while a component renders: a property of
    [undefined] is read, or the identifier [duration], which nothing in
    ToolCall.tsx binds, is evaluated. *)
Inductive RenderError : Type :=
  | TypeError_undefined
  | ReferenceError_duration.

Inductive Element : Type :=
  | TimeSeriesTool (props : TimeSeriesToolProps)
  | GenericToolCall_of (toolCall : ToolCallType).

(** [ToolCall]: the switch on [toolCall.toolName]. *)
Definition ToolCall (toolCall : ToolCallType) (datasource : Perses.DatasourceSelector)
    : RenderError + Element :=
  if bool_decide (toolName toolCall = "execute_range_query") then
    let query := args toolCall !! "query" in
    let start := args toolCall !! "start" in
    let end_ := args toolCall !! "end" in
    if truthy start && truthy end_ then
      inr (TimeSeriesTool
             {| query := if truthy query then js_str query else "";
                timeRange := AbsoluteTimeRange (js_str start) (js_str end_);
                datasource := datasource |})
    else inl ReferenceError_duration
  else inr (GenericToolCall_of toolCall).

Inductive Rendered : Type :=
  | UserBubble (children : option string)
  | Markdown (children : option string)
  | ToolElement (element : Element).

(** [Message], rendered together with the [ToolCall] it mounts. *)
Definition Message (message : ChatMessage) (datasource : Perses.DatasourceSelector)
    : RenderError + Rendered :=
  if bool_decide (role message = user) then inr (UserBubble (content message))
  else if bool_decide (role message = tool) then
    match toolCall message with
    | None => inl TypeError_undefined
    | Some t =>
        match ToolCall t datasource with
        | inl e => inl e
        | inr element => inr (ToolElement element)
        end
    end
  else inr (Markdown (content message)).

(** [String(n)] for an integer [n]; exact below 10^21 in absolute value. *)
Definition Number_toString (n : Z) : string := NilZero.string_of_int (Z.to_int n).

(** [`${m.createdAt}-${index}`] *)
Definition key (m : ChatMessage) (index : nat) : string :=
  Number_toString (createdAt m) +:+ "-" +:+ NilZero.string_of_uint (Nat.to_uint index).

(** [Messages]: one keyed [Message] per entry of the store. *)
Definition Messages (messages : list ChatMessage) (datasource : Perses.DatasourceSelector)
    : list (string * (RenderError + Rendered)) :=
  imap (λ index m, (key m index, Message m datasource)) messages.

End Components.

(** ** PersaiExplorer.tsx: what the component shows *)

(** The conversation box with its messages and whether the progress
    indicator is in it, the alert, and the state of the input and button. *)
Record Screen : Type := {
  conversation : option (list ChatMessage * bool);
  alert : option string;
  input_disabled : bool;
  button_label : string;
}.

Definition PersaiExplorer_render (st : Explorer) : Screen :=
  {| conversation :=
       if bool_decide (0 < length (messages st)) then Some (messages st, isStreaming st)
       else None;
     alert := if truthy (error st) then error st else None;
     input_disabled := isStreaming st;
     button_label := if isStreaming st then "Streaming..." else "Submit Query" |}.

(** ** The messages that the component builds *)

(** A message as [addUserRequest], [updateChunk] and [addToolResponse] build
    it: a tool message whose content is the result of its call, or a user or
    agent message without a tool call. *)
Definition built_by_component (m : ChatMessage) : Prop :=
  match toolCall m with
  | Some t => role m = tool ∧ content m = result t ∧ call_role t = call_tool
  | None => role m = user ∨ role m = agent
  end.

(** The store ends with a message of role [tool]. *)
Definition ends_with_tool (messages : list ChatMessage) : Prop :=
  ∃ m, last messages = Some m ∧ role m = tool.

(** ** Sample data *)

Module sample.

Definition call (id : string) : Llama.ToolCall :=
  {| Llama.call_id := Some id; Llama.tool_name := "execute_range_query";
     Llama.arguments := {["query" := "up"]} |}.

Definition response (id text : string) : Llama.ToolResponse :=
  {| Llama.response_call_id := Some id; Llama.response_tool_name := "execute_range_query";
     Llama.response_content := text |}.

(** A call without [call_id], with the name and the arguments of [call]. *)
Definition unidentified_call : Llama.ToolCall :=
  {| Llama.call_id := None; Llama.tool_name := "execute_range_query";
     Llama.arguments := {["query" := "up"]} |}.

(** A clock that reads [t] milliseconds at every call. *)
Definition at_ms (t : Z) : nat → Z := λ _, t.

Definition said (who : Role) (text : string) (at_s : Z) : ChatMessage :=
  {| role := who; content := Some text; createdAt := at_s; toolCall := None |}.

(** A store in which the call [c1] is pending, followed by agent text. *)
Definition pending_then_text : list ChatMessage :=
  [toolMessage 1000 (call "c1") None; said agent "x" 2].

(** The same store once the response of [c1] has been folded in at 3 s. *)
Definition answered_then_text : list ChatMessage :=
  [toolMessage 3000 (call "c1") (Some (response "c1" "42")); said agent "x" 2].

(** The user's question, the answered call [c1] and agent text: the store
    after a submission at 1 s, the call and a text delta at 2 s, and the
    response of the call at 3 s. *)
Definition conversation : list ChatMessage :=
  [said user "hi" 1; toolMessage 3000 (call "c1") (Some (response "c1" "42"));
   said agent "x" 2].

(** A store in which the result of the call [c1] is shown. *)
Definition question_and_result : list ChatMessage :=
  [said user "hi" 1; toolMessage 1000 (call "c1") (Some (response "c1" "42"))].

Definition configured (sessionCreate : Thrown + string) (turnCreate : Thrown + Stream)
    : Submission :=
  {| persaiUrl := Some "http://localhost:8000";
     datasourcePath := Some "/proxy/globaldatasources/prometheus";
     submitted_at := 1000;
     sessionCreate := sessionCreate;
     turnCreate := turnCreate |}.




(** The stream yields the whole answer and finishes. *)
Definition answered (session_id text : string) : Submission :=
  configured (inr session_id)
    (inr {| arrivals :=
              [{| clock_at := at_ms 2000; chunk := streamChunks.turnStart |};
               {| clock_at := at_ms 3000; chunk := streamChunks.turnComplete text |}];
            raises := None |}).

(** The stream yields the result of the call [c1] and then the whole
    answer. *)
Definition with_tool_call (session_id text : string) : Submission :=
  configured (inr session_id)
    (inr {| arrivals :=
              [{| clock_at := at_ms 2000;
                  chunk := streamChunks.toolExecution [call "c1"] [response "c1" "42"] |};
               {| clock_at := at_ms 3000; chunk := streamChunks.turnComplete text |}];
            raises := None |}).

(** Session creation is rejected. *)
Definition offline : Submission :=
  configured (inl (ErrorInstance "Network error")) (inl (ErrorInstance "Network error")).

(** The component after the user typed [text]. *)
Definition typed (text : string) (st : Explorer) : Explorer :=
  setQueryText (Some text) st.

End sample.

Arguments updateChunk : simpl never.
Arguments addToolResponse : simpl never.
Arguments updateMessagesFromChunk : simpl never.
Arguments text_rule : simpl never.
Arguments callIds : simpl never.

(** ** Arrays *)

Lemma findIndex_from_cases {A : Type} (p : A → bool) (l : list A) (k : Z) :
  (findIndex_from p l k = (-1)%Z ∧ ∀ x, x ∈ l → p x = false)
  ∨ (∃ i x, findIndex_from p l k = (k + Z.of_nat i)%Z ∧ l !! i = Some x ∧ p x = true
            ∧ ∀ j y, j < i → l !! j = Some y → p y = false).
Proof.
  revert k. induction l as [|a l IH]; intros k; simpl.
  - left. split; [done|]. intros x Hx. by apply elem_of_nil in Hx.
  - destruct (p a) eqn:Hpa.
    + right. exists 0, a. repeat split; [lia | done | lia].
    + destruct (IH (k + 1)%Z) as [[Hnone Hall] | (i & x & Hidx & Hx & Hpx & Hbefore)].
      * left. split; [done|]. intros x [->|Hx]%elem_of_cons; auto.
      * right. exists (S i), x. repeat split; [lia | done | done |].
        intros [|j] y Hj Hy; simpl in Hy; [by simplify_eq|].
        apply (Hbefore j); [lia | done].
Qed.

Lemma findIndex_cases {A : Type} (p : A → bool) (l : list A) :
  (findIndex p l = (-1)%Z ∧ ∀ x, x ∈ l → p x = false)
  ∨ (∃ i x, findIndex p l = Z.of_nat i ∧ l !! i = Some x ∧ p x = true
            ∧ ∀ j y, j < i → l !! j = Some y → p y = false).
Proof.
  destruct (findIndex_from_cases p l 0) as [?|(i & x & Hidx & ?)]; [by left|].
  right. exists i, x. split; [|done]. unfold findIndex. rewrite Hidx. lia.
Qed.

Lemma reduce_from_app {A B : Type} (f : B → A → nat → B) (acc : B) (k : nat)
    (l1 l2 : list A) :
  reduce_from f acc k (l1 ++ l2) =
  reduce_from f (reduce_from f acc k l1) (k + length l1) l2.
Proof.
  revert acc k. induction l1 as [|x l1 IH]; intros acc k; simpl.
  - by rewrite Nat.add_0_r.
  - rewrite IH. f_equal. lia.
Qed.

Lemma last_lookup_length {A : Type} (l : list A) : l !! (length l - 1) = last l.
Proof. rewrite last_lookup. f_equal. lia. Qed.

Lemma insert_last_take {A : Type} (l : list A) (x : A) :
  l ≠ [] → <[length l - 1 := x]> l = take (length l - 1) l ++ [x].
Proof.
  intros Hl. destruct (exists_last Hl) as (l0 & y & ->).
  rewrite length_app. simpl.
  replace (length l0 + 1 - 1) with (length l0 + 0) by lia.
  rewrite insert_app_r. simpl.
  rewrite Nat.add_0_r, take_app_length. done.
Qed.

(** ** [updateChunk] *)

Lemma updateChunk_text_rule (now : Z) (messages : list ChatMessage) (u : ChunkUpdate) :
  updateChunk now messages u =
  text_rule now messages (updateMessage u) (updateMessage u (Some "")).
Proof.
  unfold updateChunk, text_rule, last_agent, replace_last.
  rewrite last_lookup_length.
  destruct (last messages) as [m|] eqn:Hlast; [|done].
  case_bool_decide; [|done].
  apply insert_last_take. intros ->. done.
Qed.

Lemma text_rule_ext (now : Z) (messages : list ChatMessage)
    (f g : option string → option string) (fresh : option string) :
  (∀ old, f old = g old) →
  text_rule now messages f fresh = text_rule now messages g fresh.
Proof.
  intros Hfg. unfold text_rule. destruct (last_agent messages); [|done].
  by rewrite Hfg.
Qed.

Lemma updateMessage_delta (d : string) (old : option string) :
  d ≠ "" →
  updateMessage {| delta := Some d; full := None |} old = Some (js_str old +:+ d).
Proof.
  intros Hd. unfold updateMessage, js_plus. simpl.
  by rewrite bool_decide_true.
Qed.

Lemma updateMessage_full (s : string) (old : option string) :
  updateMessage {| delta := None; full := Some s |} old = Some s.
Proof. done. Qed.

(** A text delta that is not empty extends the trailing agent message, or
    starts a new agent message with exactly the delta. *)
Lemma text_delta_extends_or_appends (clock : nat → Z) (messages : list ChatMessage)
    (d : string) :
  d ≠ "" →
  updateMessagesFromChunk clock messages (streamChunks.textProgress d) =
  Return (text_rule (clock 0) messages (λ old, Some (js_str old +:+ d)) (Some d)).
Proof.
  intros Hd. unfold updateMessagesFromChunk. simpl. rewrite updateChunk_text_rule.
  rewrite (updateMessage_delta d (Some "")) by done. simpl.
  f_equal. apply text_rule_ext. intros old. by apply updateMessage_delta.
Qed.

(** A delta of another kind is ignored. *)
Lemma other_delta_ignored (clock : nat → Z) (messages : list ChatMessage)
    (d : Llama.Delta) :
  tag_is (Llama.type d) "text" = false →
  updateMessagesFromChunk clock messages (streamChunks.stepProgress d) = Return messages.
Proof. intros Hd. unfold updateMessagesFromChunk. simpl. by rewrite Hd. Qed.

(** C1 (as the code behaves): a text delta whose text is the empty string
    does not concatenate.  The trailing agent message loses its content (it
    becomes [undefined]) instead of keeping it, and when there is no trailing
    agent message the new one has no content instead of the empty string. *)
Theorem empty_text_delta_drops_content (clock : nat → Z) (messages : list ChatMessage) :
  updateMessagesFromChunk clock messages (streamChunks.textProgress "") =
  Return (text_rule (clock 0) messages (λ _, None) None).
Proof.
  unfold updateMessagesFromChunk. simpl. rewrite updateChunk_text_rule. done.
Qed.

(** C3: a [turn_complete] chunk that carries an output message with text [s]
    sets the content of the trailing agent message to exactly [s], or appends
    a new agent message with content [s] when the store does not end with an
    agent message; without an output message the store is unchanged. *)
Theorem turn_complete_replaces_text (clock : nat → Z) (messages : list ChatMessage)
    (s : string) :
  updateMessagesFromChunk clock messages (streamChunks.turnComplete s) =
    Return (text_rule (clock 0) messages (λ _, Some s) (Some s))
  ∧ updateMessagesFromChunk clock messages (streamChunks.turnCompleteWith None) =
    Return messages.
Proof.
  split; [|done].
  unfold updateMessagesFromChunk. simpl. rewrite updateChunk_text_rule. done.
Qed.

(** ** [addToolResponse] *)

Lemma has_callId_spec (c : option string) (m : ChatMessage) :
  has_callId c m = true ↔ toolCall m ≫= callId = c.
Proof. unfold has_callId. apply bool_decide_eq_true. Qed.

Lemma has_callId_false (c : option string) (m : ChatMessage) :
  has_callId c m = false ↔ toolCall m ≫= callId ≠ c.
Proof. unfold has_callId. apply bool_decide_eq_false. Qed.

(** A message without [toolCall] is never taken for the message of a call
    that has an identifier, and always for that of a call that has none. *)
Lemma has_callId_plain (c : option string) (m : ChatMessage) :
  toolCall m = None → has_callId c m = bool_decide (c = None).
Proof.
  intros Hnone. unfold has_callId. rewrite Hnone. simpl.
  apply bool_decide_ext. naive_solver.
Qed.

Lemma addToolResponse_cases (now : Z) (messages : list ChatMessage)
    (tc : Llama.ToolCall) (r : option Llama.ToolResponse) :
  ((∀ m, m ∈ messages → has_callId (Llama.call_id tc) m = false)
   ∧ addToolResponse now messages tc r = messages ++ [toolMessage now tc r])
  ∨ (∃ i m, messages !! i = Some m ∧ has_callId (Llama.call_id tc) m = true
       ∧ (∀ j y, j < i → messages !! j = Some y → has_callId (Llama.call_id tc) y = false)
       ∧ addToolResponse now messages tc r = <[i := toolMessage now tc r]> messages).
Proof.
  unfold addToolResponse.
  destruct (findIndex_cases (has_callId (Llama.call_id tc)) messages)
    as [[Hidx Hall] | (i & m & Hidx & Hm & Hp & Hbefore)]; rewrite Hidx.
  - left. split; [done|]. rewrite bool_decide_false; [done | naive_solver].
  - right. exists i, m. rewrite bool_decide_true by lia. by rewrite Nat2Z.id.
Qed.

Lemma callIds_cons (m : ChatMessage) (messages : list ChatMessage) :
  callIds (m :: messages) =
  match toolCall m ≫= callId with
  | Some c => c :: callIds messages
  | None => callIds messages
  end.
Proof. done. Qed.

Lemma callIds_app (l1 l2 : list ChatMessage) : callIds (l1 ++ l2) = callIds l1 ++ callIds l2.
Proof. apply omap_app. Qed.

Lemma elem_of_callIds (c : string) (messages : list ChatMessage) :
  c ∈ callIds messages ↔ ∃ m, m ∈ messages ∧ has_callId (Some c) m = true.
Proof.
  unfold callIds. rewrite list_elem_of_omap.
  split; intros (m & Hm & Hc); exists m; by rewrite ?has_callId_spec in *.
Qed.

Lemma callIds_insert (messages : list ChatMessage) (i : nat) (m m' : ChatMessage) :
  messages !! i = Some m → toolCall m' ≫= callId = toolCall m ≫= callId →
  callIds (<[i := m']> messages) = callIds messages.
Proof.
  revert i. induction messages as [|a l IH]; intros [|i] Hi Heq; simplify_eq/=.
  - by rewrite !callIds_cons, Heq.
  - by rewrite !callIds_cons, (IH i).
Qed.

(** With at most one message per call identifier, the position of a call
    identifier in the store is determined. *)
Lemma callId_position_unique (messages : list ChatMessage) (c : string) (i j : nat)
    (mi mj : ChatMessage) :
  one_tool_per_callId messages →
  messages !! i = Some mi → messages !! j = Some mj →
  has_callId (Some c) mi = true → has_callId (Some c) mj = true → i = j.
Proof.
  unfold one_tool_per_callId.
  revert i j. induction messages as [|a l IH]; intros i j Hnd Hi Hj Hci Hcj; [done|].
  rewrite callIds_cons in Hnd.
  destruct i as [|i], j as [|j]; simplify_eq/=; [done| | |].
  - apply has_callId_spec in Hci. rewrite Hci in Hnd.
    apply NoDup_cons in Hnd as [Hnotin _]. destruct Hnotin.
    apply elem_of_callIds. exists mj. split; [|done]. by eapply list_elem_of_lookup_2.
  - apply has_callId_spec in Hcj. rewrite Hcj in Hnd.
    apply NoDup_cons in Hnd as [Hnotin _]. destruct Hnotin.
    apply elem_of_callIds. exists mi. split; [|done]. by eapply list_elem_of_lookup_2.
  - f_equal. apply IH; try done.
    destruct (toolCall a ≫= callId); [by apply NoDup_cons in Hnd as [_ ?] | done].
Qed.

Lemma toolMessage_callId (now : Z) (tc : Llama.ToolCall) (r : option Llama.ToolResponse) :
  toolCall (toolMessage now tc r) ≫= callId = Llama.call_id tc.
Proof. done. Qed.

(** An upsert adds the identifier of its call when the call has one that the
    store does not hold yet, and leaves the identifiers alone otherwise. *)
Lemma addToolResponse_callIds (now : Z) (messages : list ChatMessage)
    (tc : Llama.ToolCall) (r : option Llama.ToolResponse) :
  callIds (addToolResponse now messages tc r) =
  match Llama.call_id tc with
  | Some c => if decide (c ∈ callIds messages) then callIds messages
              else callIds messages ++ [c]
  | None => callIds messages
  end.
Proof.
  destruct (addToolResponse_cases now messages tc r)
    as [[Hall ->] | (i & m & Hi & Hm & _ & ->)].
  - rewrite callIds_app, callIds_cons, toolMessage_callId.
    destruct (Llama.call_id tc) as [c|]; [|apply app_nil_r].
    rewrite decide_False; [done|].
    rewrite elem_of_callIds. intros (m & Hm & Hc). rewrite Hall in Hc; done.
  - rewrite (callIds_insert _ _ m);
      [|done | apply has_callId_spec in Hm; by rewrite Hm].
    destruct (Llama.call_id tc) as [c|]; [|done].
    rewrite decide_True; [done|].
    apply elem_of_callIds. exists m. split; [|done]. by eapply list_elem_of_lookup_2.
Qed.

Lemma addToolResponse_one_tool_per_callId (now : Z) (messages : list ChatMessage)
    (tc : Llama.ToolCall) (r : option Llama.ToolResponse) :
  one_tool_per_callId messages → one_tool_per_callId (addToolResponse now messages tc r).
Proof.
  unfold one_tool_per_callId. intros Hnd. rewrite addToolResponse_callIds.
  destruct (Llama.call_id tc) as [c|]; [|done].
  case_decide; [done|].
  apply NoDup_app. repeat split; [done | | apply NoDup_singleton].
  intros c' Hc ->%list_elem_of_singleton. done.
Qed.

Lemma upsert_pairs_one_tool_per_callId (clock : nat → Z) (k : nat)
    (messages : list ChatMessage)
    (pairs : list (Llama.ToolCall * option Llama.ToolResponse)) :
  one_tool_per_callId messages → one_tool_per_callId (upsert_pairs clock k messages pairs).
Proof.
  revert k messages. induction pairs as [|[c r] rest IH]; intros k messages Hinv; [done|].
  simpl. apply IH. by apply addToolResponse_one_tool_per_callId.
Qed.

(** ** The tool-execution fold *)

Lemma reduce_from_upsert_pairs (clock : nat → Z) (tool_responses : list Llama.ToolResponse)
    (tool_calls : list Llama.ToolCall) (messages : list ChatMessage) (k : nat) :
  reduce_from
    (λ prevMessages toolCall index,
       addToolResponse (clock index) prevMessages toolCall (tool_responses !! index))
    messages k tool_calls
  = upsert_pairs clock k messages (pair_by_position tool_calls (drop k tool_responses)).
Proof.
  revert messages k. induction tool_calls as [|c cs IH]; intros messages k; [done|].
  simpl. rewrite IH.
  destruct (tool_responses !! k) as [r|] eqn:Hk.
  - by rewrite (drop_S _ _ _ Hk).
  - apply lookup_ge_None in Hk.
    rewrite !drop_ge by lia. done.
Qed.

Lemma reduce_from_upsert_pairs_absent (clock : nat → Z) (tool_calls : list Llama.ToolCall)
    (messages : list ChatMessage) (k : nat) :
  reduce_from
    (λ prevMessages toolCall index,
       addToolResponse (clock index) prevMessages toolCall None)
    messages k tool_calls
  = upsert_pairs clock k messages (pair_by_position tool_calls []).
Proof.
  revert messages k. induction tool_calls as [|c cs IH]; intros messages k; [done|].
  simpl. by rewrite IH.
Qed.

(** The tool-execution branch for any [tool_responses], present or not. *)
Lemma tool_execution_upserts (clock : nat → Z) (messages : list ChatMessage)
    (tool_calls : list Llama.ToolCall) (tool_responses : option (list Llama.ToolResponse)) :
  updateMessagesFromChunk clock messages
    (streamChunks.stepComplete
       {| Llama.step_type := Some "tool_execution";
          Llama.tool_calls := Some tool_calls;
          Llama.tool_responses := tool_responses |})
  = Return (upsert_pairs clock 0 messages
              (pair_by_position tool_calls (default [] tool_responses))).
Proof.
  unfold updateMessagesFromChunk, Array_reduce. simpl. f_equal.
  destruct tool_responses as [rs|]; simpl.
  - by rewrite reduce_from_upsert_pairs.
  - by rewrite reduce_from_upsert_pairs_absent.
Qed.

(** C4: a [step_complete] chunk of a tool execution is the sequential fold of
    [addToolResponse] over the calls, each paired with the response at the
    same position when there is one, every upsert working on the store left
    by the upserts before it. *)
Theorem tool_execution_is_sequential_fold (clock : nat → Z) (messages : list ChatMessage)
    (tool_calls : list Llama.ToolCall) (tool_responses : list Llama.ToolResponse) :
  updateMessagesFromChunk clock messages
    (streamChunks.toolExecution tool_calls tool_responses)
  = Return (upsert_pairs clock 0 messages (pair_by_position tool_calls tool_responses)).
Proof. apply (tool_execution_upserts clock messages tool_calls (Some tool_responses)). Qed.

(** ** The shape of one reduction step *)

Lemma last_agent_Some (messages : list ChatMessage) (m : ChatMessage) :
  last_agent messages = Some m → ∃ before, messages = before ++ [m] ∧ role m = agent.
Proof.
  unfold last_agent. destruct (last messages) as [x|] eqn:Hlast; [|done].
  case_bool_decide; [|done]. intros [= <-].
  apply last_Some in Hlast as [before ->]. by exists before.
Qed.

Lemma replace_last_snoc (before : list ChatMessage) (m m' : ChatMessage) :
  replace_last (before ++ [m]) m' = before ++ [m'].
Proof.
  unfold replace_last. rewrite length_app. simpl.
  replace (length before + 1 - 1) with (length before) by lia.
  by rewrite take_app_length.
Qed.

Lemma text_rule_cases (now : Z) (messages : list ChatMessage)
    (f : option string → option string) (fresh : option string) :
  (∃ before m, messages = before ++ [m] ∧ role m = agent
     ∧ text_rule now messages f fresh = before ++ [with_content m (f (content m))])
  ∨ (last_agent messages = None
     ∧ text_rule now messages f fresh = messages ++ [agent_message now fresh]).
Proof.
  unfold text_rule. destruct (last_agent messages) as [m|] eqn:Hlast; [|by right].
  left. apply last_agent_Some in Hlast as (before & -> & Hrole).
  exists before, m. by rewrite replace_last_snoc.
Qed.

Lemma last_agent_snoc (before : list ChatMessage) (m : ChatMessage) :
  last_agent (before ++ [m]) = if bool_decide (role m = agent) then Some m else None.
Proof. unfold last_agent. by rewrite last_snoc. Qed.

(** The two readings of [text_rule]: a store that ends with an agent message
    gets that message's content rewritten; any other store grows by one agent
    message. *)
Lemma text_rule_trailing_agent (now : Z) (before : list ChatMessage) (m : ChatMessage)
    (f : option string → option string) (fresh : option string) :
  role m = agent →
  text_rule now (before ++ [m]) f fresh = before ++ [with_content m (f (content m))].
Proof.
  intros Hrole. unfold text_rule.
  by rewrite last_agent_snoc, bool_decide_true, replace_last_snoc.
Qed.

Lemma text_rule_no_trailing_agent (now : Z) (before : list ChatMessage) (m : ChatMessage)
    (f : option string → option string) (fresh : option string) :
  role m ≠ agent →
  text_rule now (before ++ [m]) f fresh = before ++ [m; agent_message now fresh]
  ∧ text_rule now [] f fresh = [agent_message now fresh].
Proof.
  intros Hrole. split; [|done]. unfold text_rule.
  by rewrite last_agent_snoc, bool_decide_false, <- app_assoc.
Qed.

Lemma updateChunk_cases (now : Z) (messages : list ChatMessage) (u : ChunkUpdate) :
  (∃ before m c, messages = before ++ [m] ∧ role m = agent
     ∧ updateChunk now messages u = before ++ [with_content m c])
  ∨ (∃ c, updateChunk now messages u = messages ++ [agent_message now c]).
Proof.
  rewrite updateChunk_text_rule.
  destruct (text_rule_cases now messages (updateMessage u) (updateMessage u (Some "")))
    as [(before & m & -> & Hrole & ->) | [_ ->]]; [left | right]; eauto 6.
Qed.

Lemma pair_by_position_calls (tool_calls : list Llama.ToolCall)
    (tool_responses : list Llama.ToolResponse) :
  (pair_by_position tool_calls tool_responses).*1 = tool_calls.
Proof.
  revert tool_responses.
  induction tool_calls as [|c cs IH]; intros [|r rs]; simpl; by rewrite ?IH.
Qed.

(** A chunk is ignored, or it goes through [updateChunk], or it is a fold of
    [addToolResponse] over its tool calls. *)
Lemma updateMessagesFromChunk_cases (clock : nat → Z) (messages messages' : list ChatMessage)
    (chunk : Llama.AgentTurnResponseStreamChunk) :
  updateMessagesFromChunk clock messages chunk = Return messages' →
  messages' = messages
  ∨ (∃ u, messages' = updateChunk (clock 0) messages u)
  ∨ (∃ pairs, messages' = upsert_pairs clock 0 messages pairs
       ∧ Llama.call_id <$> pairs.*1 = upserted_calls chunk).
Proof.
  unfold updateMessagesFromChunk, Array_reduce, upserted_calls, payload_of.
  destruct (Llama.event chunk) as [ev|]; [|done]. simpl.
  destruct (Llama.payload ev) as [p|]; [|done].
  destruct (tag_is (Llama.event_type p) "turn_start"); [intros [= <-]; by left|].
  destruct (tag_is (Llama.event_type p) "step_start"); [intros [= <-]; by left|].
  destruct (tag_is (Llama.event_type p) "step_progress").
  { destruct (Llama.delta p) as [d|]; [|done].
    destruct (tag_is (Llama.type d) "text"); intros [= <-]; [|by left].
    right; left. eauto. }
  destruct (tag_is (Llama.event_type p) "step_complete").
  { destruct (Llama.step_details p) as [details|]; [|done].
    destruct (tag_is (Llama.step_type details) "tool_execution"); [|intros [= <-]; by left].
    destruct (Llama.tool_calls details) as [calls|]; [|done].
    intros [= <-]. right; right.
    destruct (Llama.tool_responses details) as [rs|]; simpl.
    - rewrite reduce_from_upsert_pairs. eexists. split; [done|].
      by rewrite pair_by_position_calls.
    - rewrite reduce_from_upsert_pairs_absent. eexists. split; [done|].
      by rewrite pair_by_position_calls. }
  destruct (tag_is (Llama.event_type p) "turn_complete").
  { destruct (Llama.turn p) as [t|]; [|done].
    destruct (Llama.output_message t); intros [= <-]; [|by left].
    right; left. eauto. }
  destruct (tag_is (Llama.event_type p) "turn_awaiting_input"); intros [= <-]; by left.
Qed.

(** ** One message per call identifier *)

Lemma updateChunk_callIds (now : Z) (messages : list ChatMessage) (u : ChunkUpdate) :
  callIds (updateChunk now messages u) = callIds messages.
Proof.
  destruct (updateChunk_cases now messages u)
    as [(before & m & c & -> & _ & ->) | [c ->]]; rewrite !callIds_app.
  - done.
  - apply app_nil_r.
Qed.

Lemma updateMessagesFromChunk_one_tool_per_callId (clock : nat → Z)
    (messages messages' : list ChatMessage) (chunk : Llama.AgentTurnResponseStreamChunk) :
  one_tool_per_callId messages →
  updateMessagesFromChunk clock messages chunk = Return messages' →
  one_tool_per_callId messages'.
Proof.
  intros Hinv [-> | [[u ->] | (pairs & -> & _)]]%updateMessagesFromChunk_cases.
  - done.
  - unfold one_tool_per_callId. by rewrite updateChunk_callIds.
  - by apply upsert_pairs_one_tool_per_callId.
Qed.

Lemma addToolResponse_found (now : Z) (messages : list ChatMessage) (tc : Llama.ToolCall)
    (r : option Llama.ToolResponse) (c : string) (i : nat) (m : ChatMessage) :
  one_tool_per_callId messages → Llama.call_id tc = Some c →
  messages !! i = Some m → has_callId (Some c) m = true →
  addToolResponse now messages tc r = <[i := toolMessage now tc r]> messages.
Proof.
  intros Hinv Hc Hi Hm.
  destruct (addToolResponse_cases now messages tc r)
    as [[Hall _] | (j & y & Hj & Hy & _ & ->)]; rewrite Hc in *.
  - rewrite Hall in Hm; [done|]. by eapply list_elem_of_lookup_2.
  - by rewrite (callId_position_unique messages c i j m y Hinv Hi Hj Hm Hy).
Qed.

Lemma addToolResponse_not_found (now : Z) (messages : list ChatMessage)
    (tc : Llama.ToolCall) (r : option Llama.ToolResponse) :
  (∀ m, m ∈ messages → has_callId (Llama.call_id tc) m = false) →
  addToolResponse now messages tc r = messages ++ [toolMessage now tc r].
Proof.
  intros Hall.
  destruct (addToolResponse_cases now messages tc r)
    as [[_ ->] | (j & y & Hj & Hy & _ & _)]; [done|].
  rewrite Hall in Hy; [done|]. by eapply list_elem_of_lookup_2.
Qed.

Lemma has_callId_carries (c : string) (m : ChatMessage) :
  has_callId (Some c) m = true → is_Some (toolCall m).
Proof.
  intros Hm%has_callId_spec. destruct (toolCall m); [by eexists | done].
Qed.

(** In a store of the data model, where exactly the messages of role [tool]
    carry a [toolCall], the invariant reads: no two messages of role [tool]
    have the same call identifier. *)
Lemma one_tool_per_callId_by_role (messages : list ChatMessage) :
  tool_messages_carry_calls messages →
  one_tool_per_callId messages ↔
  (∀ c i j mi mj, messages !! i = Some mi → messages !! j = Some mj →
     role mi = tool → role mj = tool →
     has_callId (Some c) mi = true → has_callId (Some c) mj = true → i = j).
Proof.
  intros Hwf. split.
  - intros Hone c i j mi mj Hi Hj _ _. by apply (callId_position_unique messages c).
  - induction messages as [|a l IH]; intros Huniq; [constructor|].
    apply Forall_cons in Hwf as [Ha Hl].
    assert (one_tool_per_callId l) as Htail.
    { apply IH; [done|]. intros c i j mi mj Hi Hj Hri Hrj Hci Hcj.
      assert (S i = S j) by (by apply (Huniq c (S i) (S j) mi mj)). lia. }
    unfold one_tool_per_callId. rewrite callIds_cons.
    destruct (toolCall a ≫= callId) as [c|] eqn:Hc; [|done].
    apply NoDup_cons. split; [|done].
    intros (m & Hm & Hcm)%elem_of_callIds.
    pose proof Hm as [j Hj]%list_elem_of_lookup_1.
    assert (has_callId (Some c) a = true) as Hca by (by apply has_callId_spec).
    assert (0 = S j); [|lia].
    apply (Huniq c 0 (S j) a m); try done.
    + apply Ha. by eapply has_callId_carries.
    + rewrite Forall_forall in Hl. apply (Hl m Hm). by eapply has_callId_carries.
Qed.

(** C2 (as stated, refuted): a tool call without [call_id] is upserted into
    a store that holds the user's message and no tool message.  The claim has
    a tool message appended; the code takes the user's message for the message
    of the call and replaces it. *)
Lemma upsert_without_call_id_replaces_plain_message :
  (∀ m, m ∈ [sample.said user "hi" 1] → role m ≠ tool ∧ toolCall m = None)
  ∧ addToolResponse 2000 [sample.said user "hi" 1] sample.unidentified_call None
    = [toolMessage 2000 sample.unidentified_call None]
  ∧ addToolResponse 2000 [sample.said user "hi" 1] sample.unidentified_call None
    ≠ [sample.said user "hi" 1] ++ [toolMessage 2000 sample.unidentified_call None]
  ∧ role (toolMessage 2000 sample.unidentified_call None) = tool.
Proof.
  split; [|split; [by vm_compute | split; [by vm_compute | done]]].
  intros m ->%list_elem_of_singleton. done.
Qed.

(** C2 (amended): for a tool call that carries the identifier [c], in a store
    with at most one message per call identifier, [addToolResponse] writes a
    freshly built message (role [tool], content and result taken from the
    response, identifier, name and arguments taken from the call, stamped with
    the current second) at the index of the message whose [toolCall.callId]
    is [c], and appends it when no message has that identifier; the result,
    and the result of every reduction step whatever its chunk, again has at
    most one message per call identifier.  (By [one_tool_per_callId_by_role]
    the invariant is the one on messages of role [tool] in every store of the
    data model.) *)
Theorem upsert_replaces_in_place_or_appends (now : Z) (messages : list ChatMessage)
    (tc : Llama.ToolCall) (r : option Llama.ToolResponse) (c : string) :
  Llama.call_id tc = Some c → one_tool_per_callId messages →
  let written :=
    {| role := tool;
       content := Llama.response_content <$> r;
       createdAt := (now / 1000)%Z;
       toolCall := Some
         {| call_role := call_tool;
            result := Llama.response_content <$> r;
            callId := Some c;
            toolName := Llama.tool_name tc;
            args := Llama.arguments tc |} |} in
  (∀ i m t, messages !! i = Some m → toolCall m = Some t → callId t = Some c →
     addToolResponse now messages tc r = <[i := written]> messages
     ∧ addToolResponse now messages tc r !! i = Some written
     ∧ length (addToolResponse now messages tc r) = length messages)
  ∧ ((∀ m t, m ∈ messages → toolCall m = Some t → callId t ≠ Some c) →
     addToolResponse now messages tc r = messages ++ [written])
  ∧ one_tool_per_callId (addToolResponse now messages tc r)
  ∧ (∀ clock chunk messages',
       updateMessagesFromChunk clock messages chunk = Return messages' →
       one_tool_per_callId messages').
Proof.
  intros Hc Hinv written.
  assert (toolMessage now tc r = written) as Hwritten.
  { unfold toolMessage, written, seconds. by rewrite Hc. }
  rewrite <- Hwritten. clear written Hwritten.
  split; [|split; [|split]].
  - intros i m t Hi Ht Hid.
    assert (has_callId (Some c) m = true) as Hm.
    { apply has_callId_spec. by rewrite Ht. }
    rewrite (addToolResponse_found now messages tc r c i m) by done.
    split; [done|]. split; [|apply length_insert].
    apply list_lookup_insert_eq. by eapply lookup_lt_Some.
  - intros Hnone. apply addToolResponse_not_found.
    intros m Hm. rewrite Hc. apply has_callId_false.
    destruct (toolCall m) as [t|] eqn:Ht; simpl; [|done].
    by apply (Hnone m t).
  - by apply addToolResponse_one_tool_per_callId.
  - intros clock chunk messages'. by apply updateMessagesFromChunk_one_tool_per_callId.
Qed.

(** C10: when the store holds the message of call [c] with a result, an
    upsert for [c] without a response replaces it by a message whose result
    and content are unset; a [step_complete] chunk that repeats the call with
    no response at its position does exactly that. *)
Theorem upsert_without_response_discards_result (now : Z) (messages : list ChatMessage)
    (tc : Llama.ToolCall) (c : string) (i : nat) (m : ChatMessage) (t : ToolCall)
    (shown : string) :
  one_tool_per_callId messages →
  messages !! i = Some m → toolCall m = Some t →
  Llama.call_id tc = Some c → callId t = Llama.call_id tc → result t = Some shown →
  ∃ m', addToolResponse now messages tc None !! i = Some m'
    ∧ content m' = None ∧ (toolCall m' ≫= result) = None
    ∧ (callId <$> toolCall m') = Some (Llama.call_id tc)
    ∧ length (addToolResponse now messages tc None) = length messages
    ∧ ∀ clock,
        updateMessagesFromChunk clock messages (streamChunks.toolExecution [tc] [])
        = Return (<[i := toolMessage (clock 0) tc None]> messages).
Proof.
  intros Hinv Hi Ht Hid Hc Hres.
  assert (has_callId (Some c) m = true) as Hm.
  { apply has_callId_spec. rewrite Ht. simpl. congruence. }
  exists (toolMessage now tc None).
  rewrite (addToolResponse_found now messages tc None c i m) by done.
  repeat split.
  - apply list_lookup_insert_eq. by eapply lookup_lt_Some.
  - apply length_insert.
  - intros clock. unfold streamChunks.toolExecution.
    rewrite tool_execution_upserts. simpl.
    by rewrite (addToolResponse_found (clock 0) messages tc None c i m).
Qed.

(** ** Timestamps *)

Lemma seconds_mono (a b : Z) : (a ≤ b)%Z → (seconds a ≤ seconds b)%Z.
Proof. intros Hab. unfold seconds. apply Z.div_le_mono; lia. Qed.

Lemma stamped_by_mono (t t' : Z) (messages : list ChatMessage) :
  (t ≤ t')%Z → stamped_by t messages → stamped_by t' messages.
Proof.
  intros Hle Hst m Hm. specialize (Hst m Hm).
  pose proof (seconds_mono t t' Hle). lia.
Qed.

Lemma stamped_by_snoc (t : Z) (messages : list ChatMessage) (m : ChatMessage) :
  stamped_by t (messages ++ [m]) ↔
  stamped_by t messages ∧ (createdAt m ≤ seconds t)%Z.
Proof.
  unfold stamped_by. split.
  - intros H. split; [intros x Hx|]; apply H; set_solver.
  - intros [H1 H2] x [Hx | ->%list_elem_of_singleton]%elem_of_app; auto.
Qed.

Lemma createdAt_monotone_snoc (messages : list ChatMessage) (m : ChatMessage) :
  createdAt_monotone (messages ++ [m]) ↔
  createdAt_monotone messages ∧ (∀ x, x ∈ messages → (createdAt x ≤ createdAt m)%Z).
Proof.
  unfold createdAt_monotone. split.
  - intros H. split.
    + intros i j mi mj Hij Hi Hj.
      apply (H i j); [done | by apply lookup_app_l_Some..].
    + intros x [i Hi]%list_elem_of_lookup_1.
      apply (H i (length messages)).
      * by eapply lookup_lt_Some.
      * by apply lookup_app_l_Some.
      * by rewrite list_lookup_middle.
  - intros [Hin Hlast] i j mi mj Hij
      [[Hi Hmi] | [-> <-]]%lookup_snoc_Some [[Hj Hmj] | [-> <-]]%lookup_snoc_Some.
    + by apply (Hin i j).
    + apply Hlast. by eapply list_elem_of_lookup_2.
    + lia.
    + lia.
Qed.

Lemma createdAt_monotone_but_tools_snoc (messages : list ChatMessage) (m : ChatMessage) :
  createdAt_monotone_but_tools (messages ++ [m]) ↔
  createdAt_monotone_but_tools messages
  ∧ (∀ x, x ∈ messages → toolCall x = None → (createdAt x ≤ createdAt m)%Z).
Proof.
  unfold createdAt_monotone_but_tools. split.
  - intros H. split.
    + intros i j mi mj Hij Hi Hj.
      apply (H i j); [done | by apply lookup_app_l_Some..].
    + intros x [i Hi]%list_elem_of_lookup_1.
      apply (H i (length messages)).
      * by eapply lookup_lt_Some.
      * by apply lookup_app_l_Some.
      * by rewrite list_lookup_middle.
  - intros [Hin Hlast] i j mi mj Hij
      [[Hi Hmi] | [-> <-]]%lookup_snoc_Some [[Hj Hmj] | [-> <-]]%lookup_snoc_Some.
    + by apply (Hin i j).
    + apply Hlast. by eapply list_elem_of_lookup_2.
    + lia.
    + lia.
Qed.

Lemma elem_of_insert_inv {A : Type} (l : list A) (i : nat) (x y : A) :
  y ∈ <[i := x]> l → y = x ∨ y ∈ l.
Proof.
  intros [j Hj]%list_elem_of_lookup_1.
  apply list_lookup_insert_Some in Hj as [(_ & -> & _) | [_ Hj]]; [by left|].
  right. by eapply list_elem_of_lookup_2.
Qed.

(** An in-place update by a message that carries a [toolCall] and is stamped
    no earlier than the store keeps the order of the other messages. *)
Lemma createdAt_monotone_but_tools_insert (messages : list ChatMessage) (i : nat)
    (x : ChatMessage) :
  createdAt_monotone_but_tools messages →
  is_Some (toolCall x) → (∀ y, y ∈ messages → (createdAt y ≤ createdAt x)%Z) →
  createdAt_monotone_but_tools (<[i := x]> messages).
Proof.
  intros Hmono [t Ht] Hbound a b ma mb Hab Ha Hb Hnone.
  apply list_lookup_insert_Some in Ha as [(_ & <- & _) | [_ Ha]]; [congruence|].
  apply list_lookup_insert_Some in Hb as [(_ & <- & _) | [_ Hb]].
  - apply Hbound. by eapply list_elem_of_lookup_2.
  - by apply (Hmono a b).
Qed.

Lemma updateChunk_timestamps (t now : Z) (messages : list ChatMessage) (u : ChunkUpdate) :
  (t ≤ now)%Z → stamped_by t messages →
  stamped_by now (updateChunk now messages u)
  ∧ (createdAt_monotone_but_tools messages →
     createdAt_monotone_but_tools (updateChunk now messages u))
  ∧ (createdAt_monotone messages → createdAt_monotone (updateChunk now messages u)).
Proof.
  intros Hle Hst. apply (stamped_by_mono t now) in Hst; [|done].
  destruct (updateChunk_cases now messages u)
    as [(before & m & c & -> & _ & ->) | [c ->]].
  - rewrite stamped_by_snoc in Hst |- *.
    rewrite !createdAt_monotone_snoc, !createdAt_monotone_but_tools_snoc. done.
  - rewrite stamped_by_snoc, createdAt_monotone_snoc, createdAt_monotone_but_tools_snoc.
    simpl. repeat split; auto; try lia; intros; by apply Hst.
Qed.

Lemma addToolResponse_timestamps (t now : Z) (messages : list ChatMessage)
    (tc : Llama.ToolCall) (r : option Llama.ToolResponse) :
  (t ≤ now)%Z → stamped_by t messages →
  stamped_by now (addToolResponse now messages tc r)
  ∧ (createdAt_monotone_but_tools messages →
     createdAt_monotone_but_tools (addToolResponse now messages tc r))
  ∧ (createdAt_monotone messages →
     (∀ m, m ∈ messages → has_callId (Llama.call_id tc) m = false) →
     createdAt_monotone (addToolResponse now messages tc r)).
Proof.
  intros Hle Hst. apply (stamped_by_mono t now) in Hst; [|done].
  destruct (addToolResponse_cases now messages tc r)
    as [[Hall ->] | (i & m & Hi & Hm & _ & ->)].
  - rewrite stamped_by_snoc, createdAt_monotone_snoc, createdAt_monotone_but_tools_snoc.
    simpl. repeat split; auto; try lia; intros; by apply Hst.
  - repeat split.
    + intros y [-> | Hy]%elem_of_insert_inv; [simpl; lia | by apply Hst].
    + intros Hmono. apply createdAt_monotone_but_tools_insert; [done | by eexists | done].
    + intros _ Hfresh. rewrite Hfresh in Hm; [done|]. by eapply list_elem_of_lookup_2.
Qed.

Lemma fresh_callId (c : string) (messages : list ChatMessage) :
  c ∉ callIds messages → ∀ m, m ∈ messages → has_callId (Some c) m = false.
Proof.
  intros Hfresh m Hm. apply not_true_is_false. intros Hc.
  apply Hfresh, elem_of_callIds. by exists m.
Qed.

Lemma upsert_pairs_timestamps (clock : nat → Z) (t' : Z)
    (pairs : list (Llama.ToolCall * option Llama.ToolResponse)) :
  (∀ i j, i ≤ j → (clock i ≤ clock j)%Z) → (∀ k, (clock k ≤ t')%Z) →
  ∀ (k : nat) (t0 : Z) (messages : list ChatMessage),
  (t0 ≤ clock k)%Z → stamped_by t0 messages →
  stamped_by t' (upsert_pairs clock k messages pairs)
  ∧ (createdAt_monotone_but_tools messages →
     createdAt_monotone_but_tools (upsert_pairs clock k messages pairs))
  ∧ (createdAt_monotone messages →
     NoDup (Llama.call_id <$> pairs.*1) →
     (∀ c, c ∈ Llama.call_id <$> pairs.*1 → ∃ id, c = Some id ∧ id ∉ callIds messages) →
     createdAt_monotone (upsert_pairs clock k messages pairs)).
Proof.
  intros Hclock Hend.
  induction pairs as [|[c r] rest IH]; intros k t0 messages Hk Hst; simpl.
  - split; [|by auto]. apply (stamped_by_mono t0); [|done].
    specialize (Hend k). lia.
  - destruct (addToolResponse_timestamps t0 (clock k) messages c r Hk Hst)
      as (Hst1 & Hbut1 & Hmono1).
    destruct (IH (S k) (clock k) (addToolResponse (clock k) messages c r))
      as (Hst2 & Hbut2 & Hmono2); [apply Hclock; lia | done |].
    repeat split; [done | by auto |].
    intros Hmono [Hc Hnd]%NoDup_cons Hfresh.
    destruct (Hfresh (Llama.call_id c)) as (id & Hid & Hcfresh);
      [simpl; apply elem_of_cons; by left|].
    apply Hmono2; [|done|].
    { apply Hmono1; [done|]. rewrite Hid. by apply fresh_callId. }
    intros c' Hc'.
    destruct (Hfresh c') as (id' & -> & Hfresh'); [simpl; apply elem_of_cons; by right|].
    exists id'. split; [done|].
    rewrite addToolResponse_callIds, Hid, decide_False by done.
    intros [Hin | ->%list_elem_of_singleton]%elem_of_app; [done|].
    apply Hc. by rewrite Hid.
Qed.

Lemma updateMessagesFromChunk_timestamps (t t' : Z) (clock : nat → Z)
    (messages messages' : list ChatMessage) (chunk : Llama.AgentTurnResponseStreamChunk) :
  clock_between t t' clock → stamped_by t messages →
  updateMessagesFromChunk clock messages chunk = Return messages' →
  stamped_by t' messages'
  ∧ (createdAt_monotone_but_tools messages → createdAt_monotone_but_tools messages')
  ∧ (createdAt_monotone messages →
     NoDup (upserted_calls chunk) →
     (∀ c, c ∈ upserted_calls chunk → ∃ id, c = Some id ∧ id ∉ callIds messages) →
     createdAt_monotone messages').
Proof.
  intros [Hrange Hclock] Hst
    [-> | [[u ->] | (pairs & -> & <-)]]%updateMessagesFromChunk_cases.
  - split; [|by auto]. apply (stamped_by_mono t); [|done].
    specialize (Hrange 0). lia.
  - destruct (updateChunk_timestamps t (clock 0) messages u) as (Hst1 & Hbut1 & Hmono1);
      [apply Hrange | done |].
    split; [|by auto]. apply (stamped_by_mono (clock 0)); [apply Hrange | done].
  - apply (upsert_pairs_timestamps clock t' pairs Hclock) with (t0 := t);
      [apply Hrange | apply Hrange | done].
Qed.

(** ** Roles and tool calls *)

Lemma updateChunk_tool_messages (now : Z) (messages : list ChatMessage) (u : ChunkUpdate) :
  tool_messages_carry_calls messages →
  tool_messages_carry_calls (updateChunk now messages u).
Proof.
  unfold tool_messages_carry_calls.
  destruct (updateChunk_cases now messages u)
    as [(before & m & c & -> & Hrole & ->) | [c ->]];
    rewrite !Forall_app, !Forall_singleton; simpl; [done|].
  intros H. split; [done|]. split; [by intros [? ?] | done].
Qed.

Lemma addToolResponse_tool_messages (now : Z) (messages : list ChatMessage)
    (tc : Llama.ToolCall) (r : option Llama.ToolResponse) :
  tool_messages_carry_calls messages →
  tool_messages_carry_calls (addToolResponse now messages tc r).
Proof.
  unfold tool_messages_carry_calls. intros H.
  assert (is_Some (toolCall (toolMessage now tc r)) ↔ role (toolMessage now tc r) = tool)
    as Hnew by (simpl; split; [done | by eexists]).
  destruct (addToolResponse_cases now messages tc r)
    as [[_ ->] | (i & m & _ & _ & _ & ->)].
  - apply Forall_app. split; [done|]. by apply Forall_singleton.
  - by apply Forall_insert.
Qed.

Lemma upsert_pairs_tool_messages (clock : nat → Z) (k : nat) (messages : list ChatMessage)
    (pairs : list (Llama.ToolCall * option Llama.ToolResponse)) :
  tool_messages_carry_calls messages →
  tool_messages_carry_calls (upsert_pairs clock k messages pairs).
Proof.
  revert k messages. induction pairs as [|[c r] rest IH]; intros k messages H; [done|].
  simpl. apply IH. by apply addToolResponse_tool_messages.
Qed.

Lemma updateMessagesFromChunk_tool_messages (clock : nat → Z)
    (messages messages' : list ChatMessage) (chunk : Llama.AgentTurnResponseStreamChunk) :
  tool_messages_carry_calls messages →
  updateMessagesFromChunk clock messages chunk = Return messages' →
  tool_messages_carry_calls messages'.
Proof.
  intros H [-> | [[u ->] | (pairs & -> & _)]]%updateMessagesFromChunk_cases.
  - done.
  - by apply updateChunk_tool_messages.
  - by apply upsert_pairs_tool_messages.
Qed.

(** ** Reachable stores *)

Lemma reachable_invariants (t : Z) (messages : list ChatMessage) :
  reachable t messages →
  createdAt_monotone_but_tools messages ∧ tool_messages_carry_calls messages
  ∧ one_tool_per_callId messages ∧ stamped_by t messages.
Proof.
  induction 1 as [t | t t' messages message _ (Hbut & Htools & Hone & Hst) Hle
                    | t t' clock messages chunk messages' _ (Hbut & Htools & Hone & Hst)
                        Hclock Hstep].
  - repeat split.
    + intros i j mi mj _ Hi. done.
    + constructor.
    + constructor.
    + intros m Hm. by apply elem_of_nil in Hm.
  - apply (stamped_by_mono t t') in Hst; [|done].
    unfold addUserRequest. repeat split.
    + apply createdAt_monotone_but_tools_snoc. split; [done|].
      intros x Hx _. by apply Hst.
    + apply Forall_app. split; [done|]. apply Forall_singleton. simpl.
      split; [by intros [? ?] | done].
    + unfold one_tool_per_callId. rewrite callIds_app. simpl.
      by rewrite app_nil_r.
    + apply stamped_by_snoc. split; [done | simpl; lia].
  - destruct (updateMessagesFromChunk_timestamps t t' clock messages messages' chunk)
      as (Hst' & Hbut' & _); [done..|].
    repeat split; [by auto | | | done].
    + by eapply updateMessagesFromChunk_tool_messages.
    + by eapply updateMessagesFromChunk_one_tool_per_callId.
Qed.

Lemma at_ms_clock_between (t t' : Z) :
  (t ≤ t')%Z → clock_between t t' (sample.at_ms t').
Proof. intros Hle. unfold sample.at_ms. split; intros; lia. Qed.

Lemma createdAt_monotone_pair (a b : ChatMessage) :
  (createdAt a ≤ createdAt b)%Z → createdAt_monotone [a; b].
Proof.
  intros Hab [|[|i]] [|[|j]] mi mj Hij Hi Hj; simplify_eq/=; lia.
Qed.

Lemma pending_then_text_reachable : reachable 2000 sample.pending_then_text.
Proof.
  apply (reachable_chunk 1000 2000 (sample.at_ms 2000)
           [toolMessage 1000 (sample.call "c1") None] (streamChunks.textProgress "x"));
    [|by apply at_ms_clock_between | by vm_compute].
  apply (reachable_chunk 0 1000 (sample.at_ms 1000) []
           (streamChunks.toolExecution [sample.call "c1"] []));
    [apply reachable_initial | by apply at_ms_clock_between | by vm_compute].
Qed.

Lemma response_of_pending_call :
  updateMessagesFromChunk (sample.at_ms 3000) sample.pending_then_text
    (streamChunks.toolExecution [sample.call "c1"] [sample.response "c1" "42"])
  = Return sample.answered_then_text.
Proof. by vm_compute. Qed.

Lemma answered_then_text_reachable : reachable 3000 sample.answered_then_text.
Proof.
  apply (reachable_chunk 2000 3000 (sample.at_ms 3000) sample.pending_then_text
           (streamChunks.toolExecution [sample.call "c1"] [sample.response "c1" "42"]));
    [apply pending_then_text_reachable | by apply at_ms_clock_between
    | apply response_of_pending_call].
Qed.

(** C5 (as stated, refuted): with a clock that never runs backwards, the
    store [pending_then_text] is reachable and ordered by [createdAt]; folding
    in the response of its pending call stamps the tool message again, and
    the store that results is not ordered. *)
Lemma restamped_tool_message_breaks_createdAt_order :
  reachable 2000 sample.pending_then_text
  ∧ createdAt_monotone sample.pending_then_text
  ∧ clock_between 2000 3000 (sample.at_ms 3000)
  ∧ updateMessagesFromChunk (sample.at_ms 3000) sample.pending_then_text
      (streamChunks.toolExecution [sample.call "c1"] [sample.response "c1" "42"])
    = Return sample.answered_then_text
  ∧ reachable 3000 sample.answered_then_text
  ∧ ¬ createdAt_monotone sample.answered_then_text.
Proof.
  split; [apply pending_then_text_reachable|]. split; [|split; [|split; [|split]]].
  - apply createdAt_monotone_pair. by vm_compute.
  - by apply at_ms_clock_between.
  - apply response_of_pending_call.
  - apply answered_then_text_reachable.
  - intros Hmono.
    specialize (Hmono 0 1 _ _ ltac:(lia) eq_refl eq_refl).
    revert Hmono. by vm_compute.
Qed.

(** C5 (amended): in every store reachable under a clock that never runs
    backwards, a message that is not a tool message is never newer than a
    message after it, and nothing is newer than the clock; every reduction
    step keeps this; and a step that upserts only new calls, each with a
    [call_id] of its own that the store does not hold yet (so that no message
    is replaced in place), keeps the whole store ordered by [createdAt]. *)
Theorem createdAt_monotone_except_restamped_tools :
  (∀ t messages, reachable t messages →
     createdAt_monotone_but_tools messages ∧ tool_messages_carry_calls messages
     ∧ stamped_by t messages)
  ∧ (∀ t t' clock messages chunk messages',
       clock_between t t' clock → stamped_by t messages →
       createdAt_monotone_but_tools messages →
       updateMessagesFromChunk clock messages chunk = Return messages' →
       createdAt_monotone_but_tools messages' ∧ stamped_by t' messages')
  ∧ (∀ t t' clock messages chunk messages',
       clock_between t t' clock → stamped_by t messages →
       createdAt_monotone messages →
       NoDup (upserted_calls chunk) →
       (∀ c, c ∈ upserted_calls chunk → ∃ id, c = Some id ∧ id ∉ callIds messages) →
       updateMessagesFromChunk clock messages chunk = Return messages' →
       createdAt_monotone messages' ∧ stamped_by t' messages').
Proof.
  split; [|split].
  - intros t messages Hreach.
    destruct (reachable_invariants t messages Hreach) as (? & ? & _ & ?). done.
  - intros t t' clock messages chunk messages' Hclock Hst Hbut Hstep.
    destruct (updateMessagesFromChunk_timestamps t t' clock messages messages' chunk)
      as (? & ? & _); auto.
  - intros t t' clock messages chunk messages' Hclock Hst Hmono Hnd Hfresh Hstep.
    destruct (updateMessagesFromChunk_timestamps t t' clock messages messages' chunk)
      as (? & _ & ?); auto.
Qed.

(** The three parts at work: the reachable store in which the tool message
    was stamped again (3 s) after the agent message behind it (2 s); the step
    that stamped it; and a step that appends two new calls to an ordered
    store. *)
Lemma createdAt_monotone_except_restamped_tools_witness :
  (reachable 3000 sample.answered_then_text
   ∧ createdAt_monotone_but_tools sample.answered_then_text
   ∧ tool_messages_carry_calls sample.answered_then_text
   ∧ stamped_by 3000 sample.answered_then_text)
  ∧ (updateMessagesFromChunk (sample.at_ms 3000) sample.pending_then_text
       (streamChunks.toolExecution [sample.call "c1"] [sample.response "c1" "42"])
     = Return sample.answered_then_text
     ∧ createdAt_monotone_but_tools sample.pending_then_text
     ∧ createdAt_monotone_but_tools sample.answered_then_text
     ∧ stamped_by 3000 sample.answered_then_text)
  ∧ (updateMessagesFromChunk (sample.at_ms 3000)
       [sample.said user "hi" 1; sample.said agent "x" 2]
       (streamChunks.toolExecution [sample.call "c1"; sample.call "c2"] [])
     = Return [sample.said user "hi" 1; sample.said agent "x" 2;
               toolMessage 3000 (sample.call "c1") None;
               toolMessage 3000 (sample.call "c2") None]
     ∧ createdAt_monotone [sample.said user "hi" 1; sample.said agent "x" 2]
     ∧ createdAt_monotone
         [sample.said user "hi" 1; sample.said agent "x" 2;
          toolMessage 3000 (sample.call "c1") None;
          toolMessage 3000 (sample.call "c2") None]).
Proof.
  destruct createdAt_monotone_except_restamped_tools as (Hreachable & Hstep & Hfresh).
  split; [|split].
  - split; [apply answered_then_text_reachable|].
    apply (Hreachable 3000%Z), answered_then_text_reachable.
  - destruct (Hreachable 2000%Z sample.pending_then_text pending_then_text_reachable)
      as (Hbut & _ & Hstamped).
    split; [apply response_of_pending_call|]. split; [exact Hbut|].
    apply (Hstep 2000%Z 3000%Z (sample.at_ms 3000) sample.pending_then_text
             (streamChunks.toolExecution [sample.call "c1"] [sample.response "c1" "42"]));
      [apply at_ms_clock_between; lia | exact Hstamped | exact Hbut
      | apply response_of_pending_call].
  - assert (createdAt_monotone [sample.said user "hi" 1; sample.said agent "x" 2])
      as Hordered by (apply createdAt_monotone_pair; simpl; lia).
    split; [reflexivity|]. split; [exact Hordered|].
    apply (Hfresh 2000%Z 3000%Z (sample.at_ms 3000)
             [sample.said user "hi" 1; sample.said agent "x" 2]
             (streamChunks.toolExecution [sample.call "c1"; sample.call "c2"] [])).
    + apply at_ms_clock_between. lia.
    + intros m [-> | [-> | []%elem_of_nil]%elem_of_cons]%elem_of_cons;
        vm_compute; discriminate.
    + exact Hordered.
    + vm_compute. apply NoDup_cons. split.
      * intros [[=] | []%elem_of_nil]%elem_of_cons.
      * apply NoDup_singleton.
    + intros c [-> | [-> | []%elem_of_nil]%elem_of_cons]%elem_of_cons;
        eexists; (split; [reflexivity|]); vm_compute; apply not_elem_of_nil.
    + reflexivity.
Defined.

Lemma upsert_replaces_in_place_or_appends_witness :
  Llama.call_id (sample.call "c1") = Some "c1"
  ∧ one_tool_per_callId sample.pending_then_text
  ∧ addToolResponse 3000 sample.pending_then_text (sample.call "c1")
      (Some (sample.response "c1" "42"))
    = [{| role := tool; content := Some "42"; createdAt := 3;
          toolCall := Some
            {| call_role := call_tool; result := Some "42"; callId := Some "c1";
               toolName := "execute_range_query"; args := {["query" := "up"]} |} |};
       sample.said agent "x" 2].
Proof.
  assert (one_tool_per_callId sample.pending_then_text) as Hone.
  { unfold one_tool_per_callId. vm_compute. apply NoDup_singleton. }
  split; [reflexivity|]. split; [exact Hone|].
  apply (proj1 (upsert_replaces_in_place_or_appends 3000 sample.pending_then_text
                  (sample.call "c1") (Some (sample.response "c1" "42")) "c1"
                  eq_refl Hone)
           0 (toolMessage 1000 (sample.call "c1") None)
           {| call_role := call_tool; result := None; callId := Some "c1";
              toolName := "execute_range_query"; args := {["query" := "up"]} |});
    reflexivity.
Defined.

Lemma upsert_without_response_discards_result_witness :
  one_tool_per_callId sample.question_and_result
  ∧ ∃ m', addToolResponse 5000 sample.question_and_result (sample.call "c1") None !! 1
          = Some m'
    ∧ content m' = None ∧ (toolCall m' ≫= result) = None.
Proof.
  assert (one_tool_per_callId sample.question_and_result) as Hone.
  { unfold one_tool_per_callId. vm_compute. apply NoDup_singleton. }
  split; [done|].
  destruct (upsert_without_response_discards_result 5000 sample.question_and_result
              (sample.call "c1") "c1" 1
              (toolMessage 1000 (sample.call "c1") (Some (sample.response "c1" "42")))
              {| call_role := call_tool; result := Some "42"; callId := Some "c1";
                 toolName := "execute_range_query"; args := {["query" := "up"]} |}
              "42" Hone eq_refl eq_refl eq_refl eq_refl eq_refl)
    as (m' & Hm' & Hcontent & Hresult & _).
  exists m'. done.
Defined.

(** ** Determinism up to the clock *)

Lemma reduce_from_ext {A B : Type} (f g : B → A → nat → B) (acc : B) (k : nat)
    (l : list A) :
  (∀ acc x i, f acc x i = g acc x i) → reduce_from f acc k l = reduce_from g acc k l.
Proof.
  intros Hfg. revert acc k. induction l as [|x l IH]; intros acc k; simpl; [done|].
  by rewrite Hfg, IH.
Qed.

Lemma updateChunk_same_second (a b : Z) (messages : list ChatMessage) (u : ChunkUpdate) :
  seconds a = seconds b → updateChunk a messages u = updateChunk b messages u.
Proof. intros Hab. unfold updateChunk. by rewrite Hab. Qed.

Lemma addToolResponse_same_second (a b : Z) (messages : list ChatMessage)
    (tc : Llama.ToolCall) (r : option Llama.ToolResponse) :
  seconds a = seconds b → addToolResponse a messages tc r = addToolResponse b messages tc r.
Proof. intros Hab. unfold addToolResponse, toolMessage. by rewrite Hab. Qed.

Lemma updateChunk_untimed (a b : Z) (messages : list ChatMessage) (u : ChunkUpdate) :
  untimed <$> updateChunk a messages u = untimed <$> updateChunk b messages u.
Proof.
  rewrite !updateChunk_text_rule. unfold text_rule.
  destruct (last_agent messages); [done|].
  by rewrite !fmap_app.
Qed.

Lemma findIndex_from_untimed (c : option string) (l1 l2 : list ChatMessage) (k : Z) :
  untimed <$> l1 = untimed <$> l2 →
  findIndex_from (has_callId c) l1 k = findIndex_from (has_callId c) l2 k.
Proof.
  revert l2 k. induction l1 as [|x l1 IH]; intros [|y l2] k Heq; simplify_eq/=; [done|].
  unfold has_callId at 1 3. unfold untimed in *. simplify_eq.
  replace (toolCall x) with (toolCall y) by done.
  case_bool_decide; [done|]. by apply IH.
Qed.

Lemma addToolResponse_untimed (a b : Z) (l1 l2 : list ChatMessage)
    (tc : Llama.ToolCall) (r : option Llama.ToolResponse) :
  untimed <$> l1 = untimed <$> l2 →
  untimed <$> addToolResponse a l1 tc r = untimed <$> addToolResponse b l2 tc r.
Proof.
  intros Heq. unfold addToolResponse, findIndex.
  rewrite (findIndex_from_untimed _ l1 l2 0 Heq).
  case_bool_decide.
  - rewrite !list_fmap_insert. by rewrite Heq.
  - rewrite !fmap_app. by rewrite Heq.
Qed.

Lemma reduce_from_untimed (clock1 clock2 : nat → Z)
    (respond : nat → option Llama.ToolResponse)
    (tool_calls : list Llama.ToolCall) (k : nat) (l1 l2 : list ChatMessage) :
  untimed <$> l1 = untimed <$> l2 →
  untimed <$> reduce_from
    (λ prev tc index, addToolResponse (clock1 index) prev tc (respond index)) l1 k tool_calls
  = untimed <$> reduce_from
    (λ prev tc index, addToolResponse (clock2 index) prev tc (respond index)) l2 k tool_calls.
Proof.
  revert k l1 l2. induction tool_calls as [|c cs IH]; intros k l1 l2 Heq; [done|].
  simpl. apply IH. by apply addToolResponse_untimed.
Qed.

(** C6 (as stated, refuted): the same text delta folded into the same empty
    store at two different seconds gives two different stores. *)
Lemma two_evaluations_differ_in_createdAt :
  updateMessagesFromChunk (sample.at_ms 1000) [] (streamChunks.textProgress "a")
  ≠ updateMessagesFromChunk (sample.at_ms 2000) [] (streamChunks.textProgress "a").
Proof. by vm_compute. Qed.

(** C6 (amended): two evaluations of the reducer on the same store and chunk
    both raise or both return; they return the same messages in the same
    order with the same role, content and tool-call payload; and they return
    equal stores, [createdAt] included, when the clock reads the same second
    in both. *)
Theorem deterministic_up_to_the_clock (clock1 clock2 : nat → Z)
    (messages : list ChatMessage) (chunk : Llama.AgentTurnResponseStreamChunk) :
  ((∀ k, seconds (clock1 k) = seconds (clock2 k)) →
   updateMessagesFromChunk clock1 messages chunk
   = updateMessagesFromChunk clock2 messages chunk)
  ∧ match updateMessagesFromChunk clock1 messages chunk,
          updateMessagesFromChunk clock2 messages chunk with
    | Return l1, Return l2 => untimed <$> l1 = untimed <$> l2
    | TypeError, TypeError => True
    | _, _ => False
    end.
Proof.
  unfold updateMessagesFromChunk, Array_reduce.
  destruct (Llama.event chunk) as [ev|]; [|done].
  destruct (Llama.payload ev) as [p|]; [|done].
  destruct (tag_is (Llama.event_type p) "turn_start"); [done|].
  destruct (tag_is (Llama.event_type p) "step_start"); [done|].
  destruct (tag_is (Llama.event_type p) "step_progress").
  { destruct (Llama.delta p) as [d|]; [|done].
    destruct (tag_is (Llama.type d) "text"); [|done].
    split; [|apply updateChunk_untimed].
    intros Hsame. f_equal. by apply updateChunk_same_second. }
  destruct (tag_is (Llama.event_type p) "step_complete").
  { destruct (Llama.step_details p) as [details|]; [|done].
    destruct (tag_is (Llama.step_type details) "tool_execution"); [|done].
    destruct (Llama.tool_calls details) as [calls|]; [|done].
    split.
    - intros Hsame. f_equal. apply reduce_from_ext.
      intros acc x i. by apply addToolResponse_same_second.
    - by apply (reduce_from_untimed clock1 clock2
                  (λ index, Llama.tool_responses details ≫= (.!! index))). }
  destruct (tag_is (Llama.event_type p) "turn_complete").
  { destruct (Llama.turn p) as [t|]; [|done].
    destruct (Llama.output_message t); [|done].
    split; [|apply updateChunk_untimed].
    intros Hsame. f_equal. by apply updateChunk_same_second. }
  by destruct (tag_is (Llama.event_type p) "turn_awaiting_input").
Qed.

Lemma deterministic_up_to_the_clock_witness :
  (∀ k, seconds (sample.at_ms 1000 k) = seconds (sample.at_ms 1999 k))
  ∧ updateMessagesFromChunk (sample.at_ms 1000) [] (streamChunks.textProgress "a")
    = updateMessagesFromChunk (sample.at_ms 1999) [] (streamChunks.textProgress "a").
Proof.
  assert (∀ k, seconds (sample.at_ms 1000 k) = seconds (sample.at_ms 1999 k)) as Hsame
    by (intros k; reflexivity).
  split; [done|].
  apply (proj1 (deterministic_up_to_the_clock (sample.at_ms 1000) (sample.at_ms 1999) []
                  (streamChunks.textProgress "a")) Hsame).
Defined.

(** ** Chunks without actionable state *)

Lemma tag_is_true (v : option string) (tag : string) :
  tag_is v tag = true → v = Some tag.
Proof.
  destruct v as [s|]; simpl; [|done].
  intros ->%bool_decide_eq_true. done.
Qed.

(** C7 (as stated, refuted): a [step_progress] chunk without its [delta] is
    malformed, and the reducer raises on it instead of returning the store. *)
Lemma malformed_chunk_raises_TypeError :
  no_actionable_state (streamChunks.bare (Some "step_progress"))
  ∧ updateMessagesFromChunk (sample.at_ms 0) [] (streamChunks.bare (Some "step_progress"))
    = TypeError.
Proof. split; [right; right|]; by vm_compute. Qed.

(** C7 (amended): the reducer returns the store unchanged, without raising,
    for every chunk that has an event payload and whose event type is not one
    of [step_progress], [step_complete], [turn_complete]: the three life-cycle
    types, any unrecognized type, and an absent or malformed type.  It does
    the same for every chunk of one of these three types that has the object
    its branch reads but is not a text delta, a tool execution or a
    [turn_complete] with an output message.  And it raises on every chunk that
    lacks an object which its branch of the switch dereferences. *)
Theorem chunks_without_actionable_type_are_ignored (clock : nat → Z)
    (messages : list ChatMessage) (chunk : Llama.AgentTurnResponseStreamChunk) :
  (∀ p, payload_of chunk = Some p → actionable_tag (Llama.event_type p) = false →
     updateMessagesFromChunk clock messages chunk = Return messages)
  ∧ (dereferenceable chunk = true → acts_on chunk = false →
     updateMessagesFromChunk clock messages chunk = Return messages)
  ∧ (dereferenceable chunk = false →
     updateMessagesFromChunk clock messages chunk = TypeError).
Proof.
  unfold updateMessagesFromChunk, dereferenceable, acts_on, payload_of, actionable_tag.
  destruct (Llama.event chunk) as [ev|]; simpl; [|done].
  destruct (Llama.payload ev) as [p|]; simpl; [|done].
  split.
  { intros ? [= <-] [[H1 H2]%orb_false_iff H3]%orb_false_iff.
    rewrite H1, H2, H3. by repeat case_match. }
  destruct (tag_is (Llama.event_type p) "turn_start") eqn:Hstart.
  { apply tag_is_true in Hstart. rewrite Hstart. vm_compute. by split. }
  destruct (tag_is (Llama.event_type p) "step_start") eqn:Hstep.
  { apply tag_is_true in Hstep. rewrite Hstep. vm_compute. by split. }
  destruct (tag_is (Llama.event_type p) "step_progress").
  { destruct (Llama.delta p) as [d|]; simpl; [|by split].
    split; [intros _ ->; done | done]. }
  destruct (tag_is (Llama.event_type p) "step_complete").
  { destruct (Llama.step_details p) as [details|]; [|by split].
    split; [intros _ ->; done|].
    destruct (tag_is (Llama.step_type details) "tool_execution"); simpl; [|done].
    by destruct (Llama.tool_calls details). }
  destruct (tag_is (Llama.event_type p) "turn_complete").
  { destruct (Llama.turn p) as [t|]; simpl; [|by split].
    split; [|done].
    intros _ Hnone%bool_decide_eq_false.
    destruct (Llama.output_message t); [|done]. destruct Hnone. by eexists. }
  split; [|done]. by case_match.
Qed.

(** An unknown event type; a [step_progress] whose delta is an image; and a
    [turn_complete] without its [turn]. *)
Lemma chunks_without_actionable_type_are_ignored_witness :
  (payload_of (streamChunks.bare (Some "heartbeat"))
   = Some {| Llama.event_type := Some "heartbeat"; Llama.delta := None;
             Llama.step_details := None; Llama.turn := None |}
   ∧ actionable_tag (Some "heartbeat") = false
   ∧ updateMessagesFromChunk (sample.at_ms 0) sample.question_and_result
       (streamChunks.bare (Some "heartbeat"))
     = Return sample.question_and_result)
  ∧ (dereferenceable
       (streamChunks.stepProgress {| Llama.type := Some "image"; Llama.text := None |})
     = true
     ∧ acts_on
         (streamChunks.stepProgress {| Llama.type := Some "image"; Llama.text := None |})
       = false
     ∧ updateMessagesFromChunk (sample.at_ms 0) sample.question_and_result
         (streamChunks.stepProgress {| Llama.type := Some "image"; Llama.text := None |})
       = Return sample.question_and_result)
  ∧ (dereferenceable (streamChunks.bare (Some "turn_complete")) = false
     ∧ updateMessagesFromChunk (sample.at_ms 0) sample.question_and_result
         (streamChunks.bare (Some "turn_complete"))
       = TypeError).
Proof.
  split; [|split].
  - split; [reflexivity|]. split; [reflexivity|].
    apply (proj1 (chunks_without_actionable_type_are_ignored (sample.at_ms 0)
                    sample.question_and_result (streamChunks.bare (Some "heartbeat")))
             _ eq_refl eq_refl).
  - split; [reflexivity|]. split; [reflexivity|].
    apply (proj1 (proj2 (chunks_without_actionable_type_are_ignored (sample.at_ms 0)
                           sample.question_and_result
                           (streamChunks.stepProgress
                              {| Llama.type := Some "image"; Llama.text := None |})))
             eq_refl eq_refl).
  - split; [reflexivity|].
    apply (proj2 (proj2 (chunks_without_actionable_type_are_ignored (sample.at_ms 0)
                           sample.question_and_result
                           (streamChunks.bare (Some "turn_complete"))))
             eq_refl).
Defined.

(** ** Messages that a reduction step leaves in place *)

Lemma updateChunk_keeps (now : Z) (messages : list ChatMessage) (u : ChunkUpdate)
    (i : nat) (m : ChatMessage) :
  messages !! i = Some m → role m ≠ agent → updateChunk now messages u !! i = Some m.
Proof.
  intros Hi Hrole.
  destruct (updateChunk_cases now messages u)
    as [(before & x & c & -> & Hx & ->) | [c ->]].
  - apply lookup_snoc_Some in Hi as [[Hlt Hi] | [_ ->]]; [|done].
    by apply lookup_app_l_Some.
  - by apply lookup_app_l_Some.
Qed.

(** The upsert of a call that has an identifier leaves the messages without
    [toolCall] alone. *)
Lemma addToolResponse_keeps (now : Z) (messages : list ChatMessage) (tc : Llama.ToolCall)
    (r : option Llama.ToolResponse) (i : nat) (m : ChatMessage) :
  is_Some (Llama.call_id tc) →
  messages !! i = Some m → toolCall m = None →
  addToolResponse now messages tc r !! i = Some m.
Proof.
  intros [c Hc] Hi Hnone.
  destruct (addToolResponse_cases now messages tc r)
    as [[_ ->] | (j & y & Hj & Hy & _ & ->)].
  - by apply lookup_app_l_Some.
  - rewrite list_lookup_insert_ne; [done|].
    intros ->. simplify_eq. rewrite (has_callId_plain _ _ Hnone), Hc in Hy.
    by apply bool_decide_eq_true in Hy.
Qed.

Lemma upsert_pairs_keeps (clock : nat → Z) (k : nat) (messages : list ChatMessage)
    (pairs : list (Llama.ToolCall * option Llama.ToolResponse)) (i : nat) (m : ChatMessage) :
  Forall is_Some (Llama.call_id <$> pairs.*1) →
  messages !! i = Some m → toolCall m = None →
  upsert_pairs clock k messages pairs !! i = Some m.
Proof.
  revert k messages.
  induction pairs as [|[c r] rest IH]; intros k messages Hids Hi Hnone; [done|].
  simpl in *. apply Forall_cons in Hids as [Hc Hrest].
  apply IH; [done | | done]. by apply addToolResponse_keeps.
Qed.



(** ** [handleSubmit]: a stream that raises *)





(** ** [handleSubmit]: the session *)

Lemma session_creations_snoc (rs : list Request) (r : Request) :
  session_creations (rs ++ [r]) =
  session_creations rs + (if decide (r = sessionCreate_request) then 1 else 0).
Proof.
  unfold session_creations. rewrite filter_app, length_app. f_equal.
  rewrite filter_cons, filter_nil. by case_decide.
Qed.

Lemma turn_creations_snoc (rs : list Request) (r : Request) :
  turn_creations (rs ++ [r]) =
  turn_creations rs + (if decide (r = sessionCreate_request) then 0 else 1).
Proof.
  unfold turn_creations. rewrite filter_app, length_app. f_equal.
  rewrite filter_cons, filter_nil. by repeat case_decide.
Qed.

Lemma truthy_Some (s : string) : s ≠ "" → truthy (Some s) = true.
Proof. intros Hs. simpl. by apply bool_decide_eq_true. Qed.

(** With a session identifier stored, a submission issues no session
    creation: it stops at a configuration error, or opens one turn stream on
    the stored identifier. *)
Lemma handleSubmit_with_session (st st' : Explorer) (sub : Submission) (sid : string) :
  sessionId st = Some sid → sid ≠ "" → handleSubmit st sub = Return st' →
  sessionId st' = Some sid
  ∧ ((truthy (persaiUrl sub) && truthy (datasourcePath sub) = false
      ∧ requests st' = requests st ∧ is_Some (error st'))
     ∨ (truthy (persaiUrl sub) && truthy (datasourcePath sub) = true
        ∧ requests st' = requests st ++
            [turnCreate_request sid (js_str (datasourcePath sub)) (queryText st)])).
Proof.
  intros Hsid Hne. unfold handleSubmit.
  destruct (truthy (persaiUrl sub)); simpl; [|intros [= <-]; split; [done|]; left; eauto].
  destruct (truthy (datasourcePath sub)); simpl; [|intros [= <-]; split; [done|]; left; eauto].
  rewrite Hsid, (truthy_Some sid Hne). simpl.
  destruct (turnCreate sub) as [e|response]; [intros [= <-]; split; [done|]; by right|].
  simpl. destruct (consume _ _) as [folded|]; [|done].
  destruct (raises response); intros [= <-]; split; try done; by right.
Qed.

Lemma submissions_with_session (turns : list (option string * Submission))
    (st st' : Explorer) (sid : string) :
  sessionId st = Some sid → sid ≠ "" → submissions st turns = Return st' →
  sessionId st' = Some sid
  ∧ session_creations (requests st') = session_creations (requests st).
Proof.
  revert st. induction turns as [|[typed sub] rest IH]; intros st Hsid Hne; simpl.
  - by intros [= <-].
  - destruct (handleSubmit _ sub) as [next|] eqn:Hrun; [|done].
    intros Hrest.
    apply (handleSubmit_with_session _ _ _ sid) in Hrun; [|by destruct typed|done].
    destruct Hrun as [Hnext Hrequests].
    destruct (IH next Hnext Hne Hrest) as [Hfinal Hcount].
    split; [done|]. rewrite Hcount.
    destruct Hrequests as [(_ & -> & _) | (_ & ->)].
    + by destruct typed.
    + rewrite session_creations_snoc. simpl. destruct typed; simpl; lia.
Qed.

(** A submission that ends without an error message went all the way:
    session at hand, turn stream opened and exhausted. *)
Lemma handleSubmit_succeeded (st st' : Explorer) (sub : Submission) :
  handleSubmit st sub = Return st' → error st' = None →
  if truthy (sessionId st) then
    sessionId st' = sessionId st
    ∧ requests st' = requests st ++
        [turnCreate_request (js_str (sessionId st)) (js_str (datasourcePath sub))
           (queryText st)]
  else
    ∃ session_id, sessionCreate sub = inr session_id
      ∧ sessionId st' = Some session_id
      ∧ requests st' = requests st ++
          [sessionCreate_request;
           turnCreate_request session_id (js_str (datasourcePath sub)) (queryText st)].
Proof.
  unfold handleSubmit.
  destruct (truthy (persaiUrl sub)); simpl; [|by intros [= <-]].
  destruct (truthy (datasourcePath sub)); simpl; [|by intros [= <-]].
  destruct (truthy (sessionId st)); simpl.
  - destruct (turnCreate sub) as [e|response]; [by intros [= <-]|].
    simpl. destruct (consume _ _) as [folded|]; [|done].
    destruct (raises response); intros [= <-]; [done|]. done.
  - destruct (sessionCreate sub) as [e|session_id]; [by intros [= <-]|].
    destruct (turnCreate sub) as [e|response]; [by intros [= <-]|].
    simpl. destruct (consume _ _) as [folded|]; [|done].
    destruct (raises response); intros [= <-]; [done|].
    intros _. exists session_id. simpl. by rewrite <- app_assoc.
Qed.

(** Without a session identifier, a configured submission starts by asking
    for a session, and asks once. *)
Lemma handleSubmit_without_session (st st' : Explorer) (sub : Submission) :
  truthy (sessionId st) = false →
  truthy (persaiUrl sub) = true → truthy (datasourcePath sub) = true →
  handleSubmit st sub = Return st' →
  ∃ rest, requests st' = requests st ++ sessionCreate_request :: rest
        ∧ session_creations rest = 0.
Proof.
  intros Hsid Hurl Hpath. unfold handleSubmit. rewrite Hurl, Hpath, Hsid. simpl.
  destruct (sessionCreate sub) as [e|session_id].
  { intros [= <-]. by exists []. }
  destruct (turnCreate sub) as [e|response].
  { intros [= <-]. eexists [_]. simpl. by rewrite <- app_assoc. }
  simpl. destruct (consume _ _) as [folded|]; [|done].
  destruct (raises response); intros [= <-]; eexists [_]; simpl; by rewrite <- app_assoc.
Qed.

Lemma session_creations_app (rs rs' : list Request) :
  session_creations (rs ++ rs') = session_creations rs + session_creations rs'.
Proof. unfold session_creations. by rewrite filter_app, length_app. Qed.

(** C9 (as stated, refuted): the first submission fails because session
    creation is rejected, so no identifier is stored; the retried submission
    does not skip session creation, it calls it a second time. *)
Lemma retry_after_rejected_session_creation_creates_again :
  ∃ st' st'',
    handleSubmit (sample.typed "Test query" initial) sample.offline = Return st'
    ∧ failed st' ∧ sessionId st' = None
    ∧ handleSubmit st' (sample.answered "new-session" "Success!") = Return st''
    ∧ session_creations (requests st') = 1
    ∧ session_creations (requests st'') = 2.
Proof.
  eexists. eexists. split; [by vm_compute|].
  split; [by eexists|]. split; [done|]. split; [by vm_compute|]. by vm_compute.
Qed.

(** C9 (amended): once a non-empty session identifier is stored, no later
    submission, failed or not, clears it or calls session creation again: a
    configured submission goes straight to opening one turn stream on the
    stored identifier.  Two successive submissions without error, starting
    without a session, issue exactly one session creation and two turn
    creations, provided the identifier created is not empty.  A submission
    that creates a session stores the identifier even when it fails later.
    A submission whose session creation is rejected fails, stores nothing and
    opens no turn, and the submission after it asks for a session again. *)
Theorem session_identifier_is_kept_and_reused :
  (∀ st turns st' sid,
     sessionId st = Some sid → sid ≠ "" → submissions st turns = Return st' →
     sessionId st' = Some sid
     ∧ session_creations (requests st') = session_creations (requests st))
  ∧ (∀ st sub st' sid,
       sessionId st = Some sid → sid ≠ "" →
       truthy (persaiUrl sub) = true → truthy (datasourcePath sub) = true →
       handleSubmit st sub = Return st' →
       sessionId st' = Some sid
       ∧ requests st' = requests st ++
           [turnCreate_request sid (js_str (datasourcePath sub)) (queryText st)])
  ∧ (∀ st sub1 st1 typed sub2 st2,
       sessionId st = None →
       handleSubmit st sub1 = Return st1 → error st1 = None →
       sessionId st1 ≠ Some "" →
       handleSubmit (setQueryText typed st1) sub2 = Return st2 → error st2 = None →
       session_creations (requests st2) = session_creations (requests st) + 1
       ∧ turn_creations (requests st2) = turn_creations (requests st) + 2
       ∧ sessionId st2 = sessionId st1)
  ∧ (∀ st sub st' session_id,
       truthy (sessionId st) = false →
       truthy (persaiUrl sub) = true → truthy (datasourcePath sub) = true →
       sessionCreate sub = inr session_id →
       handleSubmit st sub = Return st' →
       sessionId st' = Some session_id)
  ∧ (∀ st sub e st',
       truthy (sessionId st) = false →
       truthy (persaiUrl sub) = true → truthy (datasourcePath sub) = true →
       sessionCreate sub = inl e →
       handleSubmit st sub = Return st' →
       failed st' ∧ sessionId st' = sessionId st
       ∧ requests st' = requests st ++ [sessionCreate_request]
       ∧ ∀ typed retry st'',
           truthy (persaiUrl retry) = true → truthy (datasourcePath retry) = true →
           handleSubmit (setQueryText typed st') retry = Return st'' →
           (∃ rest, requests st'' = requests st' ++ sessionCreate_request :: rest)
           ∧ session_creations (requests st'') = session_creations (requests st) + 2).
Proof.
  split; [|split; [|split; [|split]]].
  - intros st turns st' sid. apply submissions_with_session.
  - intros st sub st' sid Hsid Hne Hurl Hpath Hrun.
    destruct (handleSubmit_with_session st st' sub sid Hsid Hne Hrun)
      as [Hkept [(Hconf & _) | (_ & Hreq)]]; [|done].
    by rewrite Hurl, Hpath in Hconf.
  - intros st sub1 st1 typed sub2 st2 Hnone Hrun1 Hok1 Hnonempty Hrun2 Hok2.
    pose proof (handleSubmit_succeeded st st1 sub1 Hrun1 Hok1) as H1.
    rewrite Hnone in H1. simpl in H1.
    destruct H1 as (sid & _ & Hsid & Hreq1).
    pose proof (handleSubmit_succeeded _ st2 sub2 Hrun2 Hok2) as H2.
    simpl in H2. rewrite Hsid in H2.
    rewrite truthy_Some in H2 by congruence.
    destruct H2 as [Hsid2 Hreq2]. simpl in Hreq2.
    rewrite Hreq2, Hreq1.
    rewrite !session_creations_snoc, !turn_creations_snoc.
    replace (requests st ++ [sessionCreate_request; turnCreate_request sid
               (js_str (datasourcePath sub1)) (queryText st)])
      with ((requests st ++ [sessionCreate_request]) ++ [turnCreate_request sid
               (js_str (datasourcePath sub1)) (queryText st)])
      by (by rewrite <- app_assoc).
    rewrite !session_creations_snoc, !turn_creations_snoc. simpl.
    repeat split; [lia | lia | congruence].
  - intros st sub st' session_id Hsid Hurl Hpath Hcreate.
    unfold handleSubmit. rewrite Hurl, Hpath, Hsid, Hcreate. simpl.
    destruct (turnCreate sub) as [e|response]; [by intros [= <-]|].
    simpl. destruct (consume _ _) as [folded|]; [|done].
    by destruct (raises response); intros [= <-].
  - intros st sub e st' Hsid Hurl Hpath Hcreate Hrun.
    assert (failed st' ∧ sessionId st' = sessionId st
            ∧ requests st' = requests st ++ [sessionCreate_request])
      as (Hfailed & Hkept & Hrequests).
    { revert Hrun. unfold handleSubmit. rewrite Hurl, Hpath, Hsid, Hcreate. simpl.
      intros [= <-]. split; [by eexists | done]. }
    split; [done|]. split; [done|]. split; [done|].
    intros typed retry st'' Hurl' Hpath' Hretry.
    destruct (handleSubmit_without_session (setQueryText typed st') st'' retry)
      as (rest & Hrequests' & Hrest); [simpl; by rewrite Hkept | done..|].
    simpl in Hrequests'. split; [by exists rest|].
    rewrite Hrequests', Hrequests.
    change (sessionCreate_request :: rest) with ([sessionCreate_request] ++ rest).
    rewrite !session_creations_app, Hrest.
    change (session_creations [sessionCreate_request]) with 1. lia.
Qed.

(** The two turns of the repository's session test, and the failed
    submission of its error-handling test followed by the retry. *)
Lemma session_identifier_is_kept_and_reused_witness :
  (∃ st1 st2,
     handleSubmit (sample.typed "What time is it?" initial)
       (sample.answered "test-session-123" "The current time is 2:30 PM.") = Return st1
     ∧ handleSubmit (setQueryText (Some "What is the weather?") st1)
         (sample.answered "ignored" "The weather is sunny.") = Return st2
     ∧ session_creations (requests st2) = 1
     ∧ turn_creations (requests st2) = 2
     ∧ sessionId st2 = Some "test-session-123")
  ∧ (∃ st1 st2,
       handleSubmit (sample.typed "Test query" initial) sample.offline = Return st1
       ∧ handleSubmit (setQueryText (Some "Test query") st1)
           (sample.answered "new-session" "Success!") = Return st2
       ∧ failed st1 ∧ sessionId st1 = None
       ∧ requests st1 = [sessionCreate_request]
       ∧ session_creations (requests st2) = 2).
Proof.
  split.
  - eexists. eexists.
    split; [reflexivity|]. split; [reflexivity|].
    destruct (proj1 (proj2 (proj2 session_identifier_is_kept_and_reused))
                (sample.typed "What time is it?" initial)
                (sample.answered "test-session-123" "The current time is 2:30 PM.")
                _ (Some "What is the weather?")
                (sample.answered "ignored" "The weather is sunny.")
                _ eq_refl eq_refl eq_refl ltac:(discriminate) eq_refl eq_refl)
      as (Hsessions & Hturns & Hkept).
    split; [exact Hsessions|]. split; [exact Hturns|]. exact Hkept.
  - eexists. eexists.
    split; [reflexivity|]. split; [reflexivity|].
    destruct (proj2 (proj2 (proj2 (proj2 session_identifier_is_kept_and_reused)))
                (sample.typed "Test query" initial) sample.offline
                (ErrorInstance "Network error") _ eq_refl eq_refl eq_refl eq_refl eq_refl)
      as (Hfailed & Hnone & Honly & Hretry).
    split; [exact Hfailed|]. split; [exact Hnone|]. split; [exact Honly|].
    exact (proj2 (Hretry (Some "Test query") (sample.answered "new-session" "Success!")
                    _ eq_refl eq_refl eq_refl)).
Defined.

(** ** The scenarios of the contract, evaluated *)

(** The failing input of C1: an empty delta after "Hello" leaves an agent
    message without content, and the next delta is glued to "undefined". *)
Example empty_delta_then_text :
  updateMessagesFromChunk (sample.at_ms 5000) [sample.said agent "Hello" 1]
    (streamChunks.textProgress "")
  = Return [{| role := agent; content := None; createdAt := 1; toolCall := None |}]
  ∧ updateMessagesFromChunk (sample.at_ms 6000)
      [{| role := agent; content := None; createdAt := 1; toolCall := None |}]
      (streamChunks.textProgress " world")
    = Return [sample.said agent "undefined world" 1].
Proof. split; by vm_compute. Qed.

(** Append vs. merge: two deltas after the user's message make one agent
    message. *)
Example deltas_merge_into_one_agent_message :
  consume
    [{| clock_at := sample.at_ms 2000; chunk := streamChunks.textProgress "A" |};
     {| clock_at := sample.at_ms 3000; chunk := streamChunks.textProgress "B" |}]
    [sample.said user "hi" 1]
  = Return [sample.said user "hi" 1; sample.said agent "AB" 2].
Proof. by vm_compute. Qed.

(** New message after a tool interruption. *)
Example text_after_tool_starts_new_message :
  consume
    [{| clock_at := sample.at_ms 2000;
        chunk := streamChunks.toolExecution [sample.call "c1"] [] |};
     {| clock_at := sample.at_ms 3000; chunk := streamChunks.textProgress "B" |}]
    [sample.said agent "A" 1]
  = Return [sample.said agent "A" 1; toolMessage 2000 (sample.call "c1") None;
            sample.said agent "B" 3].
Proof. by vm_compute. Qed.

(** Tool correlation by identifier: the later response of [c1] lands on the
    message of [c1], and [c2] stays pending. *)
Example response_lands_on_its_call :
  consume
    [{| clock_at := sample.at_ms 2000;
        chunk := streamChunks.toolExecution [sample.call "c1"; sample.call "c2"] [] |};
     {| clock_at := sample.at_ms 3000;
        chunk := streamChunks.toolExecution [sample.call "c1"]
                   [sample.response "c1" "42"] |}]
    []
  = Return [toolMessage 3000 (sample.call "c1") (Some (sample.response "c1" "42"));
            toolMessage 2000 (sample.call "c2") None].
Proof. by vm_compute. Qed.

(** The stream of the repository's tool-execution test.  Its call has no
    [call_id], so the tool message takes the place of the user's message and
    the final text lands on the agent message before it. *)
Example tool_execution_of_the_test :
  consume
    [{| clock_at := sample.at_ms 2000; chunk := streamChunks.turnStart |};
     {| clock_at := sample.at_ms 2000;
        chunk := streamChunks.textProgress "Let me check the CPU usage for you." |};
     {| clock_at := sample.at_ms 3000;
        chunk := testUtils.toolExecution "execute_range_query"
                   {["query" := "rate(cpu_usage_seconds_total[5m])";
                     "start" := "2024-01-01T00:00:00Z";
                     "end" := "2024-01-01T01:00:00Z"]}
                   "{}" |};
     {| clock_at := sample.at_ms 4000;
        chunk := streamChunks.turnComplete "The query shows CPU usage is at 45%." |}]
    [sample.said user "Show CPU usage metrics" 1]
  = Return
      [{| role := tool; content := Some "{}"; createdAt := 3;
          toolCall := Some
            {| call_role := call_tool; result := Some "{}"; callId := None;
               toolName := "execute_range_query";
               args := {["query" := "rate(cpu_usage_seconds_total[5m])";
                         "start" := "2024-01-01T00:00:00Z";
                         "end" := "2024-01-01T01:00:00Z"]} |} |};
       sample.said agent "The query shows CPU usage is at 45%." 2].
Proof. by vm_compute. Qed.

(** Full replacement on [turn_complete]. *)
Example turn_complete_overrides_deltas :
  consume
    [{| clock_at := sample.at_ms 1000; chunk := streamChunks.textProgress "Hello " |};
     {| clock_at := sample.at_ms 2000; chunk := streamChunks.textProgress "world" |};
     {| clock_at := sample.at_ms 3000; chunk := streamChunks.turnComplete "Goodbye" |}]
    []
  = Return [sample.said agent "Goodbye" 1].
Proof. by vm_compute. Qed.

(** ** What a reduction step can change *)

Lemma updateChunk_length (now : Z) (messages : list ChatMessage) (u : ChunkUpdate) :
  length messages ≤ length (updateChunk now messages u) ≤ length messages + 1.
Proof.
  destruct (updateChunk_cases now messages u)
    as [(before & m & c & -> & _ & ->) | [c ->]]; rewrite !length_app; simpl; lia.
Qed.

Lemma addToolResponse_length (now : Z) (messages : list ChatMessage)
    (tc : Llama.ToolCall) (r : option Llama.ToolResponse) :
  length messages ≤ length (addToolResponse now messages tc r) ≤ length messages + 1.
Proof.
  destruct (addToolResponse_cases now messages tc r)
    as [[Hall ->] | (i & m & Hi & Hm & _ & ->)].
  - rewrite length_app. simpl. lia.
  - rewrite length_insert. lia.
Qed.

Lemma upsert_pairs_length (clock : nat → Z) (k : nat) (messages : list ChatMessage)
    (pairs : list (Llama.ToolCall * option Llama.ToolResponse)) :
  length messages ≤ length (upsert_pairs clock k messages pairs)
                  ≤ length messages + length pairs.
Proof.
  revert k messages. induction pairs as [|[c r] rest IH]; intros k messages; simpl; [lia|].
  specialize (IH (S k) (addToolResponse (clock k) messages c r)).
  pose proof (addToolResponse_length (clock k) messages c r). lia.
Qed.

(** X1: a reduction step never shortens the store, and it adds at most one
    message, or at most one per tool call of a tool-execution chunk. *)
Theorem reduction_step_length (clock : nat → Z) (messages messages' : list ChatMessage)
    (chunk : Llama.AgentTurnResponseStreamChunk) :
  updateMessagesFromChunk clock messages chunk = Return messages' →
  length messages ≤ length messages'
  ∧ length messages' ≤ length messages + max 1 (length (upserted_calls chunk)).
Proof.
  intros [-> | [[u ->] | (pairs & -> & <-)]]%updateMessagesFromChunk_cases.
  - lia.
  - pose proof (updateChunk_length (clock 0) messages u). lia.
  - pose proof (upsert_pairs_length clock 0 messages pairs).
    rewrite !length_fmap. lia.
Qed.

Lemma reduction_step_length_witness :
  updateMessagesFromChunk (sample.at_ms 3000) sample.pending_then_text
    (streamChunks.toolExecution [sample.call "c1"; sample.call "c2"] [])
  = Return (<[0 := toolMessage 3000 (sample.call "c1") None]> sample.pending_then_text
            ++ [toolMessage 3000 (sample.call "c2") None])
  ∧ 2 ≤ 3 ≤ 2 + 2.
Proof.
  assert (updateMessagesFromChunk (sample.at_ms 3000) sample.pending_then_text
            (streamChunks.toolExecution [sample.call "c1"; sample.call "c2"] [])
          = Return (<[0 := toolMessage 3000 (sample.call "c1") None]>
                      sample.pending_then_text
                    ++ [toolMessage 3000 (sample.call "c2") None])) as Hstep
    by reflexivity.
  split; [exact Hstep|].
  pose proof (reduction_step_length _ _ _ _ Hstep) as [H1 H2].
  split; [exact H1 | exact H2].
Defined.

Lemma updateChunk_keeps_inner (now : Z) (messages : list ChatMessage) (u : ChunkUpdate)
    (i : nat) :
  i + 1 < length messages → updateChunk now messages u !! i = messages !! i.
Proof.
  intros Hi.
  destruct (updateChunk_cases now messages u)
    as [(before & m & c & -> & _ & ->) | [c ->]].
  - rewrite length_app in Hi. simpl in Hi.
    rewrite !lookup_app_l by lia. done.
  - rewrite lookup_app_l by lia. done.
Qed.

(** X2: a reduction step whose tool calls carry their [call_id] rewrites
    only the trailing agent message and messages that carry a tool call.
    Every other message, in particular every user and system message, stays
    at its index as it is.  (A tool call without [call_id] is another matter:
    it replaces the first message that has no call identifier.) *)
Theorem reduction_step_frame (clock : nat → Z) (messages messages' : list ChatMessage)
    (chunk : Llama.AgentTurnResponseStreamChunk) (i : nat) (m : ChatMessage) :
  calls_identified chunk →
  updateMessagesFromChunk clock messages chunk = Return messages' →
  messages !! i = Some m → toolCall m = None →
  role m ≠ agent ∨ i + 1 < length messages →
  messages' !! i = Some m.
Proof.
  intros Hids [-> | [[u ->] | (pairs & -> & Hcalls)]]%updateMessagesFromChunk_cases
    Hi Hnone Hwhich.
  - done.
  - destruct Hwhich as [Hrole | Hinner].
    + by apply updateChunk_keeps.
    + by rewrite updateChunk_keeps_inner.
  - apply upsert_pairs_keeps; [|done..]. by rewrite Hcalls.
Qed.

Lemma reduction_step_frame_witness :
  calls_identified (streamChunks.toolExecution [sample.call "c1"; sample.call "c2"] [])
  ∧ updateMessagesFromChunk (sample.at_ms 9000) sample.question_and_result
      (streamChunks.toolExecution [sample.call "c1"; sample.call "c2"] [])
    = Return [sample.said user "hi" 1; toolMessage 9000 (sample.call "c1") None;
              toolMessage 9000 (sample.call "c2") None]
  ∧ [sample.said user "hi" 1; toolMessage 9000 (sample.call "c1") None;
     toolMessage 9000 (sample.call "c2") None] !! 0
    = Some (sample.said user "hi" 1).
Proof.
  assert (calls_identified
            (streamChunks.toolExecution [sample.call "c1"; sample.call "c2"] []))
    as Hids.
  { apply Forall_cons. split; [by eexists|].
    apply Forall_cons. split; [by eexists | apply Forall_nil_2]. }
  split; [exact Hids|]. split; [reflexivity|].
  apply (reduction_step_frame (sample.at_ms 9000) sample.question_and_result _
           (streamChunks.toolExecution [sample.call "c1"; sample.call "c2"] []) 0
           (sample.said user "hi" 1) Hids);
    [reflexivity | reflexivity | reflexivity | left; discriminate].
Defined.

(** ** Upserting and finding a tool call *)

Lemma findIndex_first {A : Type} (p : A → bool) (l : list A) (i : nat) (x : A) :
  l !! i = Some x → p x = true →
  (∀ j y, j < i → l !! j = Some y → p y = false) →
  findIndex p l = Z.of_nat i.
Proof.
  intros Hi Hx Hbefore.
  destruct (findIndex_cases p l) as [[_ Hall] | (i' & x' & -> & Hi' & Hx' & Hbefore')].
  - rewrite Hall in Hx; [done | by eapply list_elem_of_lookup_2].
  - f_equal. destruct (Nat.lt_trichotomy i i') as [Hlt | [-> | Hgt]]; [|done|].
    + rewrite (Hbefore' i x Hlt Hi) in Hx. done.
    + rewrite (Hbefore i' x' Hgt Hi') in Hx'. done.
Qed.

Lemma addToolResponse_at_first (now : Z) (messages : list ChatMessage) (tc : Llama.ToolCall)
    (r : option Llama.ToolResponse) (i : nat) (m : ChatMessage) :
  messages !! i = Some m → has_callId (Llama.call_id tc) m = true →
  (∀ j y, j < i → messages !! j = Some y → has_callId (Llama.call_id tc) y = false) →
  addToolResponse now messages tc r = <[i := toolMessage now tc r]> messages.
Proof.
  intros Hi Hm Hbefore. unfold addToolResponse.
  rewrite (findIndex_first _ messages i m Hi Hm Hbefore).
  rewrite bool_decide_true by lia. by rewrite Nat2Z.id.
Qed.

Lemma toolMessage_has_callId (now : Z) (tc : Llama.ToolCall) (r : option Llama.ToolResponse) :
  has_callId (Llama.call_id tc) (toolMessage now tc r) = true.
Proof. unfold has_callId. simpl. by apply bool_decide_eq_true. Qed.

(** After an upsert the first message of the call is the fresh one. *)
Lemma addToolResponse_first_match (now : Z) (messages : list ChatMessage)
    (tc : Llama.ToolCall) (r : option Llama.ToolResponse) :
  ∃ i, addToolResponse now messages tc r !! i = Some (toolMessage now tc r)
     ∧ (∀ j y, j < i → addToolResponse now messages tc r !! j = Some y →
          has_callId (Llama.call_id tc) y = false)
     ∧ (addToolResponse now messages tc r = messages ++ [toolMessage now tc r]
        ∧ i = length messages
        ∨ addToolResponse now messages tc r = <[i := toolMessage now tc r]> messages
          ∧ i < length messages).
Proof.
  destruct (addToolResponse_cases now messages tc r)
    as [[Hall ->] | (i & m & Hi & Hm & Hbefore & ->)].
  - exists (length messages). split; [by rewrite list_lookup_middle|]. split; [|by left].
    intros j y Hj Hy. rewrite lookup_app_l in Hy by done.
    apply Hall. by eapply list_elem_of_lookup_2.
  - pose proof (lookup_lt_Some _ _ _ Hi) as Hlt.
    exists i. split; [by apply list_lookup_insert_eq|]. split; [|by right].
    intros j y Hj Hy. rewrite list_lookup_insert_ne in Hy by lia.
    by apply (Hbefore j).
Qed.

(** X3: looking a call up after its upsert finds the message just written:
    [findIndex] on the new store returns a valid index, and the message at
    that index is the freshly built tool message.  No assumption on the store
    is needed. *)
Theorem upsert_then_find (now : Z) (messages : list ChatMessage) (tc : Llama.ToolCall)
    (r : option Llama.ToolResponse) :
  ∃ i, findIndex (has_callId (Llama.call_id tc)) (addToolResponse now messages tc r)
       = Z.of_nat i
     ∧ addToolResponse now messages tc r !! i = Some (toolMessage now tc r).
Proof.
  destruct (addToolResponse_first_match now messages tc r) as (i & Hi & Hbefore & _).
  exists i. split; [|done].
  apply (findIndex_first _ _ i (toolMessage now tc r)); [done | | done].
  apply toolMessage_has_callId.
Qed.

(** X4: what an upsert leaves alone.  A message for which the test
    [msg.toolCall?.callId === toolCallId] fails stays at its index.  For a call
    with a [call_id] these are the messages of other calls and all messages
    without a tool call.  For a call without [call_id] the test succeeds on
    every message without a tool call: the first message of the store that has
    no call identifier, the user's message as a rule, is replaced by the tool
    message. *)
Theorem upsert_leaves_other_messages (now : Z) (messages : list ChatMessage)
    (tc : Llama.ToolCall) (r : option Llama.ToolResponse) (j : nat) (m : ChatMessage) :
  messages !! j = Some m →
  (has_callId (Llama.call_id tc) m = false →
   addToolResponse now messages tc r !! j = Some m)
  ∧ (is_Some (Llama.call_id tc) → toolCall m = None →
     addToolResponse now messages tc r !! j = Some m)
  ∧ (Llama.call_id tc = None → toolCall m ≫= callId = None →
     (∀ i y, i < j → messages !! i = Some y → is_Some (toolCall y ≫= callId)) →
     addToolResponse now messages tc r = <[j := toolMessage now tc r]> messages
     ∧ addToolResponse now messages tc r !! j = Some (toolMessage now tc r)).
Proof.
  intros Hj. split; [|split].
  - intros Hm.
    destruct (addToolResponse_cases now messages tc r)
      as [[_ ->] | (i & y & Hi & Hy & _ & ->)].
    + by apply lookup_app_l_Some.
    + rewrite list_lookup_insert_ne; [done|]. intros ->. simplify_eq. congruence.
  - intros Hid Hnone. by apply addToolResponse_keeps.
  - intros Hid Hnone Hbefore.
    assert (addToolResponse now messages tc r = <[j := toolMessage now tc r]> messages)
      as ->.
    { apply (addToolResponse_at_first now messages tc r j m); [done | |].
      - apply has_callId_spec. by rewrite Hid.
      - intros i y Hi Hy. apply has_callId_false. rewrite Hid.
        destruct (Hbefore i y Hi Hy) as [c ->]. done. }
    split; [done|]. apply list_lookup_insert_eq. by eapply lookup_lt_Some.
Qed.

(** A call with the identifier [c2] leaves the user's message and the message
    of [c1] alone; the same call without its identifier replaces the user's
    message. *)
Lemma upsert_leaves_other_messages_witness :
  (addToolResponse 9000 sample.question_and_result (sample.call "c2") None !! 0
   = Some (sample.said user "hi" 1)
   ∧ addToolResponse 9000 sample.question_and_result (sample.call "c2") None !! 1
     = Some (toolMessage 1000 (sample.call "c1") (Some (sample.response "c1" "42"))))
  ∧ addToolResponse 9000 sample.question_and_result sample.unidentified_call None
    = [toolMessage 9000 sample.unidentified_call None;
       toolMessage 1000 (sample.call "c1") (Some (sample.response "c1" "42"))].
Proof.
  split; [split|].
  - apply (proj1 (proj2 (upsert_leaves_other_messages 9000 sample.question_and_result
                           (sample.call "c2") None 0 (sample.said user "hi" 1) eq_refl)));
      [by eexists | reflexivity].
  - apply (proj1 (upsert_leaves_other_messages 9000 sample.question_and_result
                    (sample.call "c2") None 1
                    (toolMessage 1000 (sample.call "c1") (Some (sample.response "c1" "42")))
                    eq_refl)).
    reflexivity.
  - apply (proj2 (proj2 (upsert_leaves_other_messages 9000 sample.question_and_result
                           sample.unidentified_call None 0 (sample.said user "hi" 1)
                           eq_refl)));
      [reflexivity | reflexivity | intros i y Hi; inversion Hi].
Defined.

(** X5: for one call identifier the last upsert wins: two upserts in a row
    leave the store that the second one alone would have left. *)
Theorem last_upsert_wins (now1 now2 : Z) (messages : list ChatMessage)
    (tc1 tc2 : Llama.ToolCall) (r1 r2 : option Llama.ToolResponse) :
  Llama.call_id tc1 = Llama.call_id tc2 →
  addToolResponse now2 (addToolResponse now1 messages tc1 r1) tc2 r2
  = addToolResponse now2 messages tc2 r2.
Proof.
  intros Hid.
  destruct (addToolResponse_cases now1 messages tc1 r1)
    as [[Hall ->] | (i & m & Hi & Hm & Hbefore & ->)].
  - rewrite (addToolResponse_at_first now2 _ tc2 r2 (length messages)
               (toolMessage now1 tc1 r1)).
    + rewrite (addToolResponse_not_found now2 messages tc2 r2) by (by rewrite <- Hid).
      replace (length messages) with (length messages + 0) at 1 by lia.
      by rewrite insert_app_r.
    + by rewrite list_lookup_middle.
    + rewrite <- Hid. apply toolMessage_has_callId.
    + intros j y Hj Hy. rewrite lookup_app_l in Hy by done.
      rewrite <- Hid. apply Hall. by eapply list_elem_of_lookup_2.
  - pose proof (lookup_lt_Some _ _ _ Hi) as Hlt.
    rewrite (addToolResponse_at_first now2 _ tc2 r2 i (toolMessage now1 tc1 r1)).
    + rewrite list_insert_insert_eq. symmetry.
      apply (addToolResponse_at_first now2 messages tc2 r2 i m);
        [done | by rewrite <- Hid | by rewrite <- Hid].
    + by apply list_lookup_insert_eq.
    + rewrite <- Hid. apply toolMessage_has_callId.
    + intros j y Hj Hy. rewrite list_lookup_insert_ne in Hy by lia.
      rewrite <- Hid. by apply (Hbefore j).
Qed.

Lemma last_upsert_wins_witness :
  Llama.call_id (sample.call "c1") = Llama.call_id (sample.call "c1")
  ∧ addToolResponse 3000 (addToolResponse 2000 [sample.said user "hi" 1] (sample.call "c1") None)
      (sample.call "c1") (Some (sample.response "c1" "42"))
    = addToolResponse 3000 [sample.said user "hi" 1] (sample.call "c1")
        (Some (sample.response "c1" "42")).
Proof.
  split; [reflexivity|].
  apply (last_upsert_wins 2000 3000 [sample.said user "hi" 1] (sample.call "c1")
           (sample.call "c1") None (Some (sample.response "c1" "42"))).
  reflexivity.
Defined.

Lemma upsert_pairs_callIds (clock : nat → Z) (k : nat) (messages : list ChatMessage)
    (pairs : list (Llama.ToolCall * option Llama.ToolResponse)) :
  ∃ added, callIds (upsert_pairs clock k messages pairs) = callIds messages ++ added
         ∧ ∀ c, c ∈ added → Some c ∈ Llama.call_id <$> pairs.*1.
Proof.
  revert k messages. induction pairs as [|[c r] rest IH]; intros k messages; simpl.
  - exists []. split; [by rewrite app_nil_r | by intros ? ?%elem_of_nil].
  - destruct (IH (S k) (addToolResponse (clock k) messages c r)) as (added & -> & Hadded).
    rewrite addToolResponse_callIds.
    assert (∀ c', c' ∈ added → Some c' ∈ Llama.call_id c :: (Llama.call_id <$> rest.*1))
      as Hlater.
    { intros c' Hc'. apply elem_of_cons. right. by apply Hadded. }
    destruct (Llama.call_id c) as [id|] eqn:Hid; [|by exists added].
    case_decide; [by exists added|].
    exists (id :: added). split; [by rewrite <- app_assoc|].
    intros c' [-> | Hc']%elem_of_cons; [apply elem_of_cons; by left | by apply Hlater].
Qed.

(** X6: a reduction step never removes or reorders call identifiers: the
    identifiers of the old store, in their order, are followed by those the
    step added, and every one added is a call of the chunk. *)
Theorem reduction_step_extends_callIds (clock : nat → Z)
    (messages messages' : list ChatMessage) (chunk : Llama.AgentTurnResponseStreamChunk) :
  updateMessagesFromChunk clock messages chunk = Return messages' →
  ∃ added, callIds messages' = callIds messages ++ added
         ∧ ∀ c, c ∈ added → Some c ∈ upserted_calls chunk.
Proof.
  intros [-> | [[u ->] | (pairs & -> & <-)]]%updateMessagesFromChunk_cases.
  - exists []. split; [by rewrite app_nil_r | by intros ? ?%elem_of_nil].
  - exists []. split; [by rewrite updateChunk_callIds, app_nil_r | by intros ? ?%elem_of_nil].
  - apply upsert_pairs_callIds.
Qed.

Lemma reduction_step_extends_callIds_witness :
  ∃ added,
    callIds (<[0 := toolMessage 3000 (sample.call "c1") None]> sample.pending_then_text
             ++ [toolMessage 3000 (sample.call "c2") None])
    = callIds sample.pending_then_text ++ added
    ∧ ∀ c, c ∈ added →
        Some c ∈ upserted_calls
                   (streamChunks.toolExecution [sample.call "c1"; sample.call "c2"] []).
Proof.
  apply (reduction_step_extends_callIds (sample.at_ms 3000) sample.pending_then_text _
           (streamChunks.toolExecution [sample.call "c1"; sample.call "c2"] [])).
  reflexivity.
Defined.

(** ** How text chunks compose *)

Lemma text_rule_twice (now1 now2 : Z) (messages : list ChatMessage)
    (f g : option string → option string) (a b : option string) :
  text_rule now2 (text_rule now1 messages f a) g b
  = text_rule now1 messages (λ old, g (f old)) (g a).
Proof.
  destruct (text_rule_cases now1 messages f a)
    as [(before & m & -> & Hrole & ->) | [Hnone ->]].
  - rewrite !text_rule_trailing_agent by done. done.
  - rewrite text_rule_trailing_agent by done.
    unfold text_rule. by rewrite Hnone.
Qed.

Lemma textProgress_text_rule (clock : nat → Z) (messages : list ChatMessage) (d : string) :
  updateMessagesFromChunk clock messages (streamChunks.textProgress d)
  = Return (text_rule (clock 0) messages
              (updateMessage {| delta := Some d; full := None |})
              (updateMessage {| delta := Some d; full := None |} (Some ""))).
Proof. unfold updateMessagesFromChunk. simpl. by rewrite updateChunk_text_rule. Qed.

Lemma turnComplete_text_rule (clock : nat → Z) (messages : list ChatMessage) (s : string) :
  updateMessagesFromChunk clock messages (streamChunks.turnComplete s)
  = Return (text_rule (clock 0) messages (λ _, Some s) (Some s)).
Proof. unfold updateMessagesFromChunk. simpl. by rewrite updateChunk_text_rule. Qed.

Lemma append_empty_l (a b : string) : a +:+ b = "" → a = "".
Proof. by destruct a. Qed.

Lemma append_assoc (a b c : string) : (a +:+ b) +:+ c = a +:+ (b +:+ c).
Proof.
  induction a as [|x a IH]; [done|].
  change (String x ((a +:+ b) +:+ c) = String x (a +:+ (b +:+ c))). by rewrite IH.
Qed.

(** X7: how a text is cut into deltas does not matter: two non-empty text
    deltas in a row leave the store that the single delta of their
    concatenation, arriving with the first one, would have left. *)
Theorem text_deltas_concatenate (clock1 clock2 : nat → Z) (messages : list ChatMessage)
    (d1 d2 : string) :
  d1 ≠ "" → d2 ≠ "" →
  ∃ messages1,
    updateMessagesFromChunk clock1 messages (streamChunks.textProgress d1)
    = Return messages1
    ∧ updateMessagesFromChunk clock2 messages1 (streamChunks.textProgress d2)
      = updateMessagesFromChunk clock1 messages (streamChunks.textProgress (d1 +:+ d2)).
Proof.
  intros Hd1 Hd2.
  assert (d1 +:+ d2 ≠ "") as Hd12 by (by intros ?%append_empty_l).
  eexists. split; [by apply text_delta_extends_or_appends|].
  rewrite !text_delta_extends_or_appends by done.
  rewrite text_rule_twice. f_equal. simpl.
  apply text_rule_ext. intros old. simpl. by rewrite append_assoc.
Qed.

Lemma text_deltas_concatenate_witness :
  ∃ messages1,
    updateMessagesFromChunk (sample.at_ms 2000) [sample.said user "hi" 1]
      (streamChunks.textProgress "A") = Return messages1
    ∧ updateMessagesFromChunk (sample.at_ms 3000) messages1 (streamChunks.textProgress "B")
      = updateMessagesFromChunk (sample.at_ms 2000) [sample.said user "hi" 1]
          (streamChunks.textProgress "AB").
Proof.
  apply (text_deltas_concatenate (sample.at_ms 2000) (sample.at_ms 3000)
           [sample.said user "hi" 1] "A" "B"); discriminate.
Defined.

(** X8: [turn_complete] has the last word.  After any text delta (an empty
    one included) a [turn_complete] with text [s] leaves the store that it
    would have left had it arrived in place of the delta; and a second
    [turn_complete] with the same text changes nothing. *)
Theorem turn_complete_overrides_and_repeats (clock1 clock2 : nat → Z)
    (messages : list ChatMessage) (d s : string) :
  (∃ messages1,
     updateMessagesFromChunk clock1 messages (streamChunks.textProgress d)
     = Return messages1
     ∧ updateMessagesFromChunk clock2 messages1 (streamChunks.turnComplete s)
       = updateMessagesFromChunk clock1 messages (streamChunks.turnComplete s))
  ∧ (∃ messages1,
       updateMessagesFromChunk clock1 messages (streamChunks.turnComplete s)
       = Return messages1
       ∧ updateMessagesFromChunk clock2 messages1 (streamChunks.turnComplete s)
         = Return messages1).
Proof.
  split; eexists; (split; [first [apply textProgress_text_rule | apply turnComplete_text_rule]|]);
    rewrite !turnComplete_text_rule, text_rule_twice; done.
Qed.

(** ** Text after a tool call *)

Lemma addToolResponse_ends_with_tool (now : Z) (messages : list ChatMessage)
    (tc : Llama.ToolCall) (r : option Llama.ToolResponse) :
  ends_with_tool messages
  ∨ (∀ m, m ∈ messages → has_callId (Llama.call_id tc) m = false) →
  ends_with_tool (addToolResponse now messages tc r).
Proof.
  intros Hwhy. unfold ends_with_tool.
  destruct (addToolResponse_cases now messages tc r)
    as [[_ ->] | (i & y & Hi & Hy & _ & ->)].
  - exists (toolMessage now tc r). by rewrite last_snoc.
  - destruct Hwhy as [(m & Hlast & Hrole) | Hfresh].
    + rewrite last_lookup, length_insert.
      destruct (decide (i = pred (length messages))) as [-> | Hne].
      * exists (toolMessage now tc r). split; [|done].
        apply list_lookup_insert_eq. apply lookup_lt_Some in Hi. lia.
      * exists m. rewrite list_lookup_insert_ne by done.
        by rewrite <- last_lookup.
    + rewrite Hfresh in Hy; [done|]. by eapply list_elem_of_lookup_2.
Qed.

Lemma upsert_pairs_ends_with_tool (clock : nat → Z)
    (pairs : list (Llama.ToolCall * option Llama.ToolResponse)) (k : nat)
    (messages : list ChatMessage) :
  ends_with_tool messages
  ∨ (∃ c, Some c ∈ Llama.call_id <$> pairs.*1 ∧ c ∉ callIds messages) →
  ends_with_tool (upsert_pairs clock k messages pairs).
Proof.
  revert k messages. induction pairs as [|[tc r] rest IH]; intros k messages Hwhy; simpl.
  - destruct Hwhy as [? | (c & Hc & _)]; [done | by apply elem_of_nil in Hc].
  - apply IH.
    destruct (addToolResponse_cases (clock k) messages tc r)
      as [[Hall Happended] | (i & y & Hi & Hy & _ & Hreplaced)].
    + left. apply addToolResponse_ends_with_tool. by right.
    + destruct Hwhy as [Hends | (c & Hc & Hnew)].
      * left. apply addToolResponse_ends_with_tool. by left.
      * right. exists c. rewrite Hreplaced.
        rewrite (callIds_insert _ _ y);
          [|done | apply has_callId_spec in Hy; by rewrite Hy].
        split; [|done]. simpl in Hc. apply elem_of_cons in Hc as [Hc | Hc]; [|done].
        destruct Hnew. apply elem_of_callIds. exists y.
        split; [by eapply list_elem_of_lookup_2 | by rewrite Hc].
Qed.

(** X9: text never continues across a new tool call.  When a tool-execution
    chunk brings at least one call whose [call_id] the store does not hold
    yet, the store ends with a tool message afterwards, so the next text delta
    or [turn_complete] starts a new agent message instead of extending the one
    before the tool call.  (A call without [call_id] is not such a call: it
    replaces a message in place whenever the store holds one without call
    identifier.) *)
Theorem text_after_new_tool_call_starts_new_message (clock1 : nat → Z)
    (messages : list ChatMessage) (tool_calls : list Llama.ToolCall)
    (tool_responses : list Llama.ToolResponse) (tc : Llama.ToolCall) (c : string) :
  tc ∈ tool_calls → Llama.call_id tc = Some c → c ∉ callIds messages →
  ∃ messages1,
    updateMessagesFromChunk clock1 messages
      (streamChunks.toolExecution tool_calls tool_responses) = Return messages1
    ∧ ends_with_tool messages1
    ∧ ∀ clock2 text, text ≠ "" →
        updateMessagesFromChunk clock2 messages1 (streamChunks.textProgress text)
        = Return (messages1 ++ [agent_message (clock2 0) (Some text)])
        ∧ updateMessagesFromChunk clock2 messages1 (streamChunks.turnComplete text)
          = Return (messages1 ++ [agent_message (clock2 0) (Some text)]).
Proof.
  intros Hin Hid Hfresh. eexists. split; [apply tool_execution_upserts|].
  assert (ends_with_tool
            (upsert_pairs clock1 0 messages
               (pair_by_position tool_calls (default [] (Some tool_responses))))) as Hends.
  { apply upsert_pairs_ends_with_tool. right. exists c.
    split; [|done]. rewrite pair_by_position_calls, <- Hid. by apply list_elem_of_fmap_2. }
  split; [done|].
  intros clock2 text Htext.
  destruct Hends as (m & Hlast & Hrole).
  rewrite text_delta_extends_or_appends by done. rewrite turnComplete_text_rule.
  unfold text_rule, last_agent. rewrite Hlast, Hrole. done.
Qed.

Lemma text_after_new_tool_call_starts_new_message_witness :
  ∃ messages1,
    updateMessagesFromChunk (sample.at_ms 2000)
      [sample.said user "hi" 1; sample.said agent "A" 1]
      (streamChunks.toolExecution [sample.call "c1"] []) = Return messages1
    ∧ ends_with_tool messages1
    ∧ updateMessagesFromChunk (sample.at_ms 3000) messages1 (streamChunks.turnComplete "B")
      = Return [sample.said user "hi" 1; sample.said agent "A" 1;
                toolMessage 2000 (sample.call "c1") None; sample.said agent "B" 3].
Proof.
  destruct (text_after_new_tool_call_starts_new_message (sample.at_ms 2000)
              [sample.said user "hi" 1; sample.said agent "A" 1]
              [sample.call "c1"] [] (sample.call "c1") "c1")
    as (messages1 & Hstep & Hends & Hnext).
  - apply list_elem_of_singleton. reflexivity.
  - reflexivity.
  - vm_compute. intros H. inversion H.
  - exists messages1. split; [exact Hstep|]. split; [exact Hends|].
    rewrite (proj2 (Hnext (sample.at_ms 3000) "B" ltac:(discriminate))).
    injection Hstep as <-. reflexivity.
Defined.

(** ** Responses of a tool execution *)

Lemma pair_by_position_surplus (tool_calls : list Llama.ToolCall)
    (tool_responses extra : list Llama.ToolResponse) :
  length tool_calls ≤ length tool_responses →
  pair_by_position tool_calls (tool_responses ++ extra)
  = pair_by_position tool_calls tool_responses.
Proof.
  revert tool_responses. induction tool_calls as [|c cs IH]; intros [|r rs] Hlen;
    simpl in *; [done | done | lia |].
  rewrite IH by lia. done.
Qed.

(** X10: responses that have no call are dropped, and a tool execution
    without a [tool_responses] array is treated like one with an empty
    array: every call is upserted as pending. *)
Theorem surplus_and_absent_tool_responses (clock : nat → Z) (messages : list ChatMessage)
    (tool_calls : list Llama.ToolCall) (tool_responses extra : list Llama.ToolResponse) :
  (length tool_calls ≤ length tool_responses →
   updateMessagesFromChunk clock messages
     (streamChunks.toolExecution tool_calls (tool_responses ++ extra))
   = updateMessagesFromChunk clock messages
       (streamChunks.toolExecution tool_calls tool_responses))
  ∧ updateMessagesFromChunk clock messages
      (streamChunks.stepComplete
         {| Llama.step_type := Some "tool_execution";
            Llama.tool_calls := Some tool_calls;
            Llama.tool_responses := None |})
    = updateMessagesFromChunk clock messages (streamChunks.toolExecution tool_calls []).
Proof.
  unfold streamChunks.toolExecution. rewrite !tool_execution_upserts. simpl.
  split; [|done]. intros Hlen. by rewrite pair_by_position_surplus.
Qed.

Lemma surplus_and_absent_tool_responses_witness :
  updateMessagesFromChunk (sample.at_ms 2000) []
    (streamChunks.toolExecution [sample.call "c1"]
       ([sample.response "c1" "42"] ++ [sample.response "c9" "lost"]))
  = updateMessagesFromChunk (sample.at_ms 2000) []
      (streamChunks.toolExecution [sample.call "c1"] [sample.response "c1" "42"]).
Proof.
  apply (proj1 (surplus_and_absent_tool_responses (sample.at_ms 2000) []
                  [sample.call "c1"] [sample.response "c1" "42"]
                  [sample.response "c9" "lost"])).
  simpl. lia.
Defined.

Lemma addToolResponse_reads_content_only (now : Z) (messages : list ChatMessage)
    (tc : Llama.ToolCall) (r r' : option Llama.ToolResponse) :
  Llama.response_content <$> r = Llama.response_content <$> r' →
  addToolResponse now messages tc r = addToolResponse now messages tc r'.
Proof. intros Heq. unfold addToolResponse, toolMessage. by rewrite Heq. Qed.

Lemma upsert_pairs_reads_contents_only (clock : nat → Z) (tool_calls : list Llama.ToolCall)
    (rs rs' : list Llama.ToolResponse) (k : nat) (messages : list ChatMessage) :
  Llama.response_content <$> rs = Llama.response_content <$> rs' →
  upsert_pairs clock k messages (pair_by_position tool_calls rs)
  = upsert_pairs clock k messages (pair_by_position tool_calls rs').
Proof.
  revert rs rs' k messages.
  induction tool_calls as [|c cs IH]; intros [|r rs] [|r' rs'] k messages Heq;
    simplify_eq/=; try done.
  rewrite (addToolResponse_reads_content_only _ _ _ (Some r) (Some r'))
    by (simpl; congruence).
  by apply IH.
Qed.

(** X11: a response is attached to the call at its own position, and only
    its content is read: the [call_id] and [tool_name] that the response
    itself carries never influence the store. *)
Theorem responses_are_matched_by_position (clock : nat → Z) (messages : list ChatMessage)
    (tool_calls : list Llama.ToolCall) (rs rs' : list Llama.ToolResponse) :
  Llama.response_content <$> rs = Llama.response_content <$> rs' →
  updateMessagesFromChunk clock messages (streamChunks.toolExecution tool_calls rs)
  = updateMessagesFromChunk clock messages (streamChunks.toolExecution tool_calls rs').
Proof.
  intros Heq. unfold streamChunks.toolExecution. rewrite !tool_execution_upserts. simpl.
  f_equal. by apply upsert_pairs_reads_contents_only.
Qed.

Lemma responses_are_matched_by_position_witness :
  updateMessagesFromChunk (sample.at_ms 2000) []
    (streamChunks.toolExecution [sample.call "c1"; sample.call "c2"]
       [sample.response "c2" "for c2"; sample.response "c1" "for c1"])
  = updateMessagesFromChunk (sample.at_ms 2000) []
      (streamChunks.toolExecution [sample.call "c1"; sample.call "c2"]
         [sample.response "c1" "for c2"; sample.response "c2" "for c1"]).
Proof.
  apply (responses_are_matched_by_position (sample.at_ms 2000) []
           [sample.call "c1"; sample.call "c2"]
           [sample.response "c2" "for c2"; sample.response "c1" "for c1"]
           [sample.response "c1" "for c2"; sample.response "c2" "for c1"]).
  reflexivity.
Defined.

(** ** The shape of the messages in a reachable store *)

Lemma toolMessage_built (now : Z) (tc : Llama.ToolCall) (r : option Llama.ToolResponse) :
  built_by_component (toolMessage now tc r).
Proof. unfold built_by_component. simpl. done. Qed.

Lemma updateChunk_built (now : Z) (messages : list ChatMessage) (u : ChunkUpdate) :
  Forall built_by_component messages →
  Forall built_by_component (updateChunk now messages u).
Proof.
  destruct (updateChunk_cases now messages u)
    as [(before & m & c & -> & Hrole & ->) | [c ->]];
    rewrite !Forall_app, !Forall_singleton; unfold built_by_component; simpl.
  - intros [Hbefore Hm]. split; [done|].
    destruct (toolCall m); [destruct Hm as (Htool & _); congruence | done].
  - intros H. split; [done | by right].
Qed.

Lemma addToolResponse_built (now : Z) (messages : list ChatMessage)
    (tc : Llama.ToolCall) (r : option Llama.ToolResponse) :
  Forall built_by_component messages →
  Forall built_by_component (addToolResponse now messages tc r).
Proof.
  intros H.
  destruct (addToolResponse_cases now messages tc r)
    as [[_ ->] | (i & m & _ & _ & _ & ->)].
  - apply Forall_app. split; [done|]. apply Forall_singleton, toolMessage_built.
  - apply Forall_insert; [done | apply toolMessage_built].
Qed.

Lemma upsert_pairs_built (clock : nat → Z) (k : nat) (messages : list ChatMessage)
    (pairs : list (Llama.ToolCall * option Llama.ToolResponse)) :
  Forall built_by_component messages →
  Forall built_by_component (upsert_pairs clock k messages pairs).
Proof.
  revert k messages. induction pairs as [|[c r] rest IH]; intros k messages H; [done|].
  simpl. apply IH. by apply addToolResponse_built.
Qed.

(** A question at 1 s, the call [c1] and a text delta at 2 s, the response
    of the call at 3 s. *)
Lemma conversation_reachable : reachable 3000 sample.conversation.
Proof.
  apply (reachable_chunk 2000 3000 (sample.at_ms 3000)
           [sample.said user "hi" 1; toolMessage 2000 (sample.call "c1") None;
            sample.said agent "x" 2]
           (streamChunks.toolExecution [sample.call "c1"] [sample.response "c1" "42"]));
    [|apply at_ms_clock_between; lia | by vm_compute].
  apply (reachable_chunk 2000 2000 (sample.at_ms 2000)
           [sample.said user "hi" 1; toolMessage 2000 (sample.call "c1") None]
           (streamChunks.textProgress "x"));
    [|apply at_ms_clock_between; lia | by vm_compute].
  apply (reachable_chunk 1000 2000 (sample.at_ms 2000) [sample.said user "hi" 1]
           (streamChunks.toolExecution [sample.call "c1"] []));
    [|apply at_ms_clock_between; lia | by vm_compute].
  apply (reachable_submit 0 1000 [] (Some "hi")); [apply reachable_initial | lia].
Qed.

Lemma reachable_built (t : Z) (messages : list ChatMessage) :
  reachable t messages → Forall built_by_component messages.
Proof.
  induction 1 as [t | t t' messages message _ IH Hle
                    | t t' clock messages chunk messages' _ IH Hclock Hstep].
  - constructor.
  - unfold addUserRequest. apply Forall_app. split; [done|].
    apply Forall_singleton. unfold built_by_component. simpl. by left.
  - apply updateMessagesFromChunk_cases in Hstep
      as [-> | [[u ->] | (pairs & -> & _)]].
    + done.
    + by apply updateChunk_built.
    + by apply upsert_pairs_built.
Qed.

(** X12: every message of a reachable store is a tool message whose content
    equals the result of its call, or a user or agent message without a tool
    call.  The reducer never produces a system message, never attaches a tool
    call to text, and never lets the content and the result of a tool message
    differ. *)
Theorem reachable_messages_are_built_by_component (t : Z) (messages : list ChatMessage) :
  reachable t messages → Forall built_by_component messages.
Proof. apply reachable_built. Qed.

Lemma reachable_messages_are_built_by_component_witness :
  reachable 3000 sample.conversation
  ∧ Forall built_by_component sample.conversation
  ∧ (role <$> sample.conversation) = [user; tool; agent].
Proof.
  split; [apply conversation_reachable|].
  split; [|reflexivity].
  exact (reachable_messages_are_built_by_component 3000 _ conversation_reachable).
Defined.

(** ** [handleSubmit]: how a submission ends *)

(** X13: a configuration error stops the submission before the
    conversation is touched: when the backend URL is missing or empty, or
    else the datasource path is, no message is appended, no session is created
    and no turn is opened through [Client], the query text, the session and
    the streaming flag stay as they were, and the alert shows the text of the
    first check that failed.  (On the datasource branch the two datastore
    lookups have run by then; they are no requests of [Client].) *)
Theorem configuration_error_changes_only_the_alert (st : Explorer) (sub : Submission) :
  truthy (persaiUrl sub) = false ∨ truthy (datasourcePath sub) = false →
  ∃ st' text,
    handleSubmit st sub = Return st'
    ∧ messages st' = messages st ∧ requests st' = requests st
    ∧ sessionId st' = sessionId st ∧ queryText st' = queryText st
    ∧ isStreaming st' = isStreaming st
    ∧ error st' = Some text ∧ alert (PersaiExplorer_render st') = Some text
    ∧ text = (if truthy (persaiUrl sub) then "Could not determine the datasource path"
              else "Could not determine PersAI backend url ('persai_url' global variable is missing). Was the plugin installed properly?").
Proof.
  intros Hmissing. unfold handleSubmit.
  destruct (truthy (persaiUrl sub)) eqn:Hurl; simpl.
  - destruct Hmissing as [? | ->]; [done|]. simpl.
    eexists _, _. split; [done|]. by repeat split.
  - eexists _, _. split; [done|]. by repeat split.
Qed.

Lemma configuration_error_changes_only_the_alert_witness :
  ∃ st',
    handleSubmit (setMessages sample.conversation (sample.typed "Test query" initial))
      {| persaiUrl := Some "http://localhost:8000"; datasourcePath := Some "";
         submitted_at := 1000; sessionCreate := inr "s"; turnCreate := inl (OtherValue None) |}
    = Return st'
    ∧ messages st' = sample.conversation ∧ requests st' = []
    ∧ queryText st' = Some "Test query"
    ∧ alert (PersaiExplorer_render st') = Some "Could not determine the datasource path".
Proof.
  destruct (configuration_error_changes_only_the_alert
              (setMessages sample.conversation (sample.typed "Test query" initial))
              {| persaiUrl := Some "http://localhost:8000"; datasourcePath := Some "";
                 submitted_at := 1000; sessionCreate := inr "s";
                 turnCreate := inl (OtherValue None) |})
    as (st' & text & Hrun & Hmessages & Hrequests & _ & Hquery & _ & _ & Halert & Htext).
  - right. reflexivity.
  - exists st'. split; [exact Hrun|]. split; [exact Hmessages|].
    split; [exact Hrequests|]. split; [exact Hquery|].
    rewrite Halert, Htext. reflexivity.
Defined.

(** X14: when session creation is rejected, the only request issued is the
    session creation itself (no turn is opened), the user's message is the one
    message appended, the query text is cleared, no session is stored, the
    streaming flag is cleared and the error is set from the thrown value. *)
Theorem rejected_session_creation (st : Explorer) (sub : Submission) (e : Thrown) :
  truthy (persaiUrl sub) = true → truthy (datasourcePath sub) = true →
  truthy (sessionId st) = false → sessionCreate sub = inl e →
  ∃ st',
    handleSubmit st sub = Return st'
    ∧ messages st' = addUserRequest (submitted_at sub) (messages st) (queryText st)
    ∧ requests st' = requests st ++ [sessionCreate_request]
    ∧ sessionId st' = sessionId st ∧ queryText st' = Some ""
    ∧ isStreaming st' = false ∧ error st' = Some (surfaced e).
Proof.
  intros Hurl Hpath Hsid Hcreate. unfold handleSubmit.
  rewrite Hurl, Hpath, Hsid, Hcreate. simpl.
  eexists. split; [done|]. by repeat split.
Qed.

Lemma rejected_session_creation_witness :
  ∃ st',
    handleSubmit (sample.typed "Test query" initial) sample.offline = Return st'
    ∧ messages st' = [sample.said user "Test query" 1]
    ∧ requests st' = [sessionCreate_request]
    ∧ error st' = Some "Network error".
Proof.
  destruct (rejected_session_creation (sample.typed "Test query" initial) sample.offline
              (ErrorInstance "Network error") eq_refl eq_refl eq_refl eq_refl)
    as (st' & Hrun & Hmessages & Hrequests & _ & _ & _ & Herror).
  exists st'. split; [exact Hrun|]. split; [exact Hmessages|].
  split; [exact Hrequests | exact Herror].
Defined.

(** X15: when [turnCreate] is rejected, the user's message is the one message
    appended and nothing is folded in; the turn request was issued on the
    session at hand (the stored one, or the one just created, which stays
    stored); the streaming flag is cleared and the error is set. *)
Theorem rejected_turn_creation (st : Explorer) (sub : Submission) (e : Thrown) :
  truthy (persaiUrl sub) = true → truthy (datasourcePath sub) = true →
  turnCreate sub = inl e →
  (truthy (sessionId st) = true →
   ∃ st', handleSubmit st sub = Return st'
     ∧ messages st' = addUserRequest (submitted_at sub) (messages st) (queryText st)
     ∧ requests st' = requests st ++
         [turnCreate_request (js_str (sessionId st)) (js_str (datasourcePath sub))
            (queryText st)]
     ∧ sessionId st' = sessionId st
     ∧ isStreaming st' = false ∧ error st' = Some (surfaced e))
  ∧ (∀ session_id, truthy (sessionId st) = false → sessionCreate sub = inr session_id →
     ∃ st', handleSubmit st sub = Return st'
       ∧ messages st' = addUserRequest (submitted_at sub) (messages st) (queryText st)
       ∧ requests st' = requests st ++
           [sessionCreate_request;
            turnCreate_request session_id (js_str (datasourcePath sub)) (queryText st)]
       ∧ sessionId st' = Some session_id
       ∧ isStreaming st' = false ∧ error st' = Some (surfaced e)).
Proof.
  intros Hurl Hpath Hturn. unfold handleSubmit. rewrite Hurl, Hpath. simpl. split.
  - intros ->. simpl. rewrite Hturn.
    eexists. split; [done|]. by repeat split.
  - intros session_id -> ->. rewrite Hturn.
    eexists. split; [done|]. simpl. rewrite <- app_assoc. by repeat split.
Qed.

Lemma rejected_turn_creation_witness :
  ∃ st',
    handleSubmit (sample.typed "Test query" initial)
      (sample.configured (inr "test-session-123") (inl (ErrorInstance "Bad gateway")))
    = Return st'
    ∧ sessionId st' = Some "test-session-123"
    ∧ error st' = Some "Bad gateway".
Proof.
  destruct (proj2 (rejected_turn_creation (sample.typed "Test query" initial)
                     (sample.configured (inr "test-session-123")
                        (inl (ErrorInstance "Bad gateway")))
                     (ErrorInstance "Bad gateway") eq_refl eq_refl eq_refl)
              "test-session-123" eq_refl eq_refl)
    as (st' & Hrun & _ & _ & Hsid & _ & Herror).
  exists st'. split; [exact Hrun|]. split; [exact Hsid | exact Herror].
Defined.

(** X16: a submission whose stream is exhausted ends with the store that
    folding the chunks, in order, into the old store plus the user's message
    gives; the error is cleared, the streaming flag is off, the query text is
    empty, and the turn was opened with the text as it was typed. *)
Theorem completed_submission (st : Explorer) (sub : Submission) (response : Stream)
    (folded : list ChatMessage) :
  truthy (persaiUrl sub) = true → truthy (datasourcePath sub) = true →
  truthy (sessionId st) = true ∨ (∃ session_id, sessionCreate sub = inr session_id) →
  turnCreate sub = inr response → raises response = None →
  consume (arrivals response)
    (addUserRequest (submitted_at sub) (messages st) (queryText st)) = Return folded →
  ∃ st' session_id,
    handleSubmit st sub = Return st'
    ∧ messages st' = folded
    ∧ error st' = None ∧ isStreaming st' = false ∧ queryText st' = Some ""
    ∧ sessionId st' = (if truthy (sessionId st) then sessionId st else Some session_id)
    ∧ last (requests st')
      = Some (turnCreate_request session_id (js_str (datasourcePath sub)) (queryText st)).
Proof.
  intros Hurl Hpath Hsession Hturn Hraises Hfold. unfold handleSubmit.
  rewrite Hurl, Hpath. simpl.
  destruct (truthy (sessionId st)) eqn:Hsid; simpl.
  - rewrite Hturn. simpl. rewrite Hfold, Hraises.
    eexists _, _. split; [done|]. simpl. by rewrite last_snoc.
  - destruct Hsession as [? | [session_id Hcreate]]; [done|].
    rewrite Hcreate, Hturn. simpl. rewrite Hfold, Hraises.
    eexists _, session_id. split; [done|]. simpl. by rewrite last_snoc.
Qed.

Lemma completed_submission_witness :
  ∃ st' session_id,
    handleSubmit (sample.typed "What time is it?" initial)
      (sample.answered "test-session-123" "The current time is 2:30 PM.") = Return st'
    ∧ messages st'
      = [sample.said user "What time is it?" 1;
         sample.said agent "The current time is 2:30 PM." 3]
    ∧ error st' = None ∧ isStreaming st' = false
    ∧ sessionId st' = Some session_id.
Proof.
  destruct (completed_submission (sample.typed "What time is it?" initial)
              (sample.answered "test-session-123" "The current time is 2:30 PM.")
              {| arrivals :=
                   [{| clock_at := sample.at_ms 2000; chunk := streamChunks.turnStart |};
                    {| clock_at := sample.at_ms 3000;
                       chunk := streamChunks.turnComplete "The current time is 2:30 PM." |}];
                 raises := None |}
              [sample.said user "What time is it?" 1;
               sample.said agent "The current time is 2:30 PM." 3]
              eq_refl eq_refl (or_intror (ex_intro _ "test-session-123" eq_refl))
              eq_refl eq_refl eq_refl)
    as (st' & session_id & Hrun & Hmessages & Herror & Hstreaming & _ & Hsid & _).
  exists st', session_id. split; [exact Hrun|]. split; [exact Hmessages|].
  split; [exact Herror|]. split; [exact Hstreaming | exact Hsid].
Defined.

Lemma updateMessagesFromChunk_length_le (clock : nat → Z)
    (messages messages' : list ChatMessage) (chunk : Llama.AgentTurnResponseStreamChunk) :
  updateMessagesFromChunk clock messages chunk = Return messages' →
  length messages ≤ length messages'.
Proof.
  intros [-> | [[u ->] | (pairs & -> & _)]]%updateMessagesFromChunk_cases.
  - done.
  - apply updateChunk_length.
  - apply upsert_pairs_length.
Qed.

Lemma updateMessagesFromChunk_keeps_inner (clock : nat → Z)
    (messages messages' : list ChatMessage) (chunk : Llama.AgentTurnResponseStreamChunk)
    (i : nat) (m : ChatMessage) :
  calls_identified chunk →
  updateMessagesFromChunk clock messages chunk = Return messages' →
  messages !! i = Some m → toolCall m = None → i + 1 < length messages →
  messages' !! i = Some m.
Proof.
  intros Hids [-> | [[u ->] | (pairs & -> & Hcalls)]]%updateMessagesFromChunk_cases
    Hi Hnone Hinner.
  - done.
  - by rewrite updateChunk_keeps_inner.
  - apply upsert_pairs_keeps; [|done..]. by rewrite Hcalls.
Qed.

Lemma consume_keeps_inner (response : list Arrival) (messages messages' : list ChatMessage)
    (i : nat) (m : ChatMessage) :
  stream_identified response →
  consume response messages = Return messages' →
  messages !! i = Some m → toolCall m = None → i + 1 < length messages →
  length messages ≤ length messages' ∧ messages' !! i = Some m.
Proof.
  revert messages. induction response as [|a rest IH]; intros messages Hids; simpl.
  - by intros [= <-].
  - apply Forall_cons in Hids as [Ha Hrest].
    destruct (updateMessagesFromChunk (clock_at a) messages (chunk a)) as [next|] eqn:Hstep;
      [|done].
    intros Hfold Hi Hnone Hinner.
    pose proof (updateMessagesFromChunk_length_le _ _ _ _ Hstep) as Hlen.
    destruct (IH next Hrest Hfold) as [Hlen' Hkept];
      [by eapply updateMessagesFromChunk_keeps_inner | done | lia |].
    split; [lia | done].
Qed.

(** X17: a new turn whose tool calls carry their [call_id] never rewrites
    the text of earlier turns.  Every message without a tool call that is in
    the store when the user submits, agent messages included, is at the same
    index and unchanged when the submission has settled, however it ends. *)
Theorem submission_keeps_earlier_text (st st' : Explorer) (sub : Submission)
    (i : nat) (m : ChatMessage) :
  (∀ response, turnCreate sub = inr response → stream_identified (arrivals response)) →
  handleSubmit st sub = Return st' →
  messages st !! i = Some m → toolCall m = None →
  messages st' !! i = Some m.
Proof.
  intros Hids Hrun Hi Hnone.
  assert (addUserRequest (submitted_at sub) (messages st) (queryText st) !! i = Some m)
    as Hstarted by (by apply lookup_app_l_Some).
  assert (∀ response folded,
            turnCreate sub = inr response →
            consume (arrivals response)
              (addUserRequest (submitted_at sub) (messages st) (queryText st))
            = Return folded → folded !! i = Some m) as Hfolded.
  { intros response folded Hturn Hfold.
    eapply consume_keeps_inner; [by apply Hids | exact Hfold | done | done |].
    unfold addUserRequest. rewrite length_app. simpl.
    apply lookup_lt_Some in Hi. lia. }
  revert Hrun. unfold handleSubmit.
  destruct (truthy (persaiUrl sub)); simpl; [|by intros [= <-]].
  destruct (truthy (datasourcePath sub)); simpl; [|by intros [= <-]].
  destruct (truthy (sessionId st)); simpl.
  - destruct (turnCreate sub) as [e|response]; [by intros [= <-]|]. simpl.
    destruct (consume _ _) as [folded|] eqn:Hfold; [|done].
    specialize (Hfolded response folded eq_refl Hfold).
    by destruct (raises response); intros [= <-].
  - destruct (sessionCreate sub) as [e|session_id]; [by intros [= <-]|].
    destruct (turnCreate sub) as [e|response]; [by intros [= <-]|]. simpl.
    destruct (consume _ _) as [folded|] eqn:Hfold; [|done].
    specialize (Hfolded response folded eq_refl Hfold).
    by destruct (raises response); intros [= <-].
Qed.

(** A second turn with a tool call and a final answer leaves the question and
    the answer of the first turn where they were. *)
Lemma submission_keeps_earlier_text_witness :
  ∃ st',
    handleSubmit
      (setMessages [sample.said user "hi" 1; sample.said agent "Hello" 2]
         (sample.typed "again" initial))
      (sample.with_tool_call "s1" "Goodbye") = Return st'
    ∧ messages st'
      = [sample.said user "hi" 1; sample.said agent "Hello" 2; sample.said user "again" 1;
         toolMessage 2000 (sample.call "c1") (Some (sample.response "c1" "42"));
         sample.said agent "Goodbye" 3]
    ∧ messages st' !! 1 = Some (sample.said agent "Hello" 2).
Proof.
  eexists. split; [reflexivity|]. split; [reflexivity|].
  apply (submission_keeps_earlier_text
           (setMessages [sample.said user "hi" 1; sample.said agent "Hello" 2]
              (sample.typed "again" initial))
           _ (sample.with_tool_call "s1" "Goodbye") 1 (sample.said agent "Hello" 2));
    [|reflexivity..].
  intros response [= <-]. simpl.
  apply Forall_cons. split; [apply Forall_cons; split; [by eexists | apply Forall_nil_2]|].
  apply Forall_cons. split; [apply Forall_nil_2 | apply Forall_nil_2].
Defined.





(** ** Rendering a tool message *)

Lemma Message_toolMessage (now : Z) (tc : Llama.ToolCall) (r : option Llama.ToolResponse)
    (ds : Perses.DatasourceSelector) :
  Components.Message (toolMessage now tc r) ds =
  match Components.ToolCall
          {| call_role := call_tool; callId := Llama.call_id tc;
             toolName := Llama.tool_name tc; args := Llama.arguments tc;
             result := Llama.response_content <$> r |} ds with
  | inl e => inl e
  | inr element => inr (Components.ToolElement element)
  end.
Proof. done. Qed.

(** X20: a range query without its time range breaks the render.  For a
    tool message that the reducer built from a call named
    [execute_range_query], [Message] raises a [ReferenceError] whenever the
    [start] or the [end] argument is missing or empty, whether the response has
    arrived or not; with both present it mounts [TimeSeriesTool] on the
    absolute range, with the [query] argument or the empty string. *)
Theorem range_query_needs_start_and_end (now : Z) (tc : Llama.ToolCall)
    (r : option Llama.ToolResponse) (ds : Perses.DatasourceSelector) :
  Llama.tool_name tc = "execute_range_query" →
  (truthy (Llama.arguments tc !! "start") = false
   ∨ truthy (Llama.arguments tc !! "end") = false →
   Components.Message (toolMessage now tc r) ds = inl Components.ReferenceError_duration)
  ∧ (∀ start end_, Llama.arguments tc !! "start" = Some start → start ≠ "" →
       Llama.arguments tc !! "end" = Some end_ → end_ ≠ "" →
       Components.Message (toolMessage now tc r) ds
       = inr (Components.ToolElement (Components.TimeSeriesTool
                {| Components.query := default "" (Llama.arguments tc !! "query");
                   Components.timeRange := Components.AbsoluteTimeRange start end_;
                   Components.datasource := ds |}))).
Proof.
  intros Hname. rewrite Message_toolMessage. unfold Components.ToolCall. simpl.
  rewrite Hname, bool_decide_true by done. split.
  - intros [-> | ->]; [done|]. by rewrite andb_false_r.
  - intros start end_ -> Hstart -> Hend.
    rewrite !truthy_Some by done. simpl. do 3 f_equal.
    destruct (Llama.arguments tc !! "query") as [q|]; simpl; [|done].
    by case_bool_decide; simplify_eq.
Qed.

Lemma range_query_needs_start_and_end_witness :
  Llama.tool_name (sample.call "c1") = "execute_range_query"
  ∧ Components.Message (toolMessage 1000 (sample.call "c1") (Some (sample.response "c1" "42")))
      {| Perses.kind := "PrometheusDatasource"; Perses.name := None |}
    = inl Components.ReferenceError_duration.
Proof.
  split; [reflexivity|].
  apply (proj1 (range_query_needs_start_and_end 1000 (sample.call "c1")
                  (Some (sample.response "c1" "42"))
                  {| Perses.kind := "PrometheusDatasource"; Perses.name := None |}
                  eq_refl)).
  left. reflexivity.
Defined.

(** X21: what a range query panel asks for.  For a range query call with
    both ends of its time range, the mounted [TimeSeriesTool] hands
    [DataQueriesProvider] exactly one Prometheus query, with the [query]
    argument on the selected datasource, and no query at all when the [query]
    argument is missing or empty. *)
Theorem range_query_definitions (now : Z) (tc : Llama.ToolCall)
    (r : option Llama.ToolResponse) (ds : Perses.DatasourceSelector) (start end_ : string) :
  Llama.tool_name tc = "execute_range_query" →
  Llama.arguments tc !! "start" = Some start → start ≠ "" →
  Llama.arguments tc !! "end" = Some end_ → end_ ≠ "" →
  ∃ props,
    Components.Message (toolMessage now tc r) ds
    = inr (Components.ToolElement (Components.TimeSeriesTool props))
    ∧ Components.TimeSeriesTool_definitions props
      = match Llama.arguments tc !! "query" with
        | Some q =>
            if bool_decide (q = "") then []
            else [{| Components.definition_kind := "PrometheusTimeSeriesQuery";
                     Components.definition_datasource :=
                       {| Perses.kind := Perses.kind ds; Perses.name := Perses.name ds |};
                     Components.definition_query := q |}]
        | None => []
        end.
Proof.
  intros Hname Hstart Hstart' Hend Hend'.
  rewrite Message_toolMessage. unfold Components.ToolCall. simpl.
  rewrite Hname, bool_decide_true by done.
  rewrite Hstart, Hend, !truthy_Some by done. simpl.
  eexists. split; [done|].
  unfold Components.TimeSeriesTool_definitions. simpl.
  destruct (Llama.arguments tc !! "query") as [q|]; simpl; [|done].
  destruct (decide (q = "")) as [-> | Hq]; [done|].
  rewrite (bool_decide_true (q ≠ "")), (bool_decide_false (q = "")) by done.
  by rewrite bool_decide_true.
Qed.

Lemma range_query_definitions_witness :
  ∃ props,
    Components.Message
      (toolMessage 1000
         {| Llama.call_id := Some "c3"; Llama.tool_name := "execute_range_query";
            Llama.arguments :=
              {["start" := "2024-01-01T00:00:00Z"; "end" := "2024-01-01T01:00:00Z"]} |}
         None)
      {| Perses.kind := "PrometheusDatasource"; Perses.name := None |}
    = inr (Components.ToolElement (Components.TimeSeriesTool props))
    ∧ Components.TimeSeriesTool_definitions props = [].
Proof.
  destruct (range_query_definitions 1000
              {| Llama.call_id := Some "c3"; Llama.tool_name := "execute_range_query";
                 Llama.arguments :=
                   {["start" := "2024-01-01T00:00:00Z"; "end" := "2024-01-01T01:00:00Z"]} |}
              None {| Perses.kind := "PrometheusDatasource"; Perses.name := None |}
              "2024-01-01T00:00:00Z" "2024-01-01T01:00:00Z")
    as (props & Hrender & Hdefinitions); try reflexivity; try discriminate.
  exists props. split; [exact Hrender | exact Hdefinitions].
Defined.

(** X22: every other tool is shown by [GenericToolCall], under the caption
    "Tool: " followed by its name.  Expanded, it shows the arguments when the
    call has at least one, and the result when the response has arrived with a
    content that is not empty; a pending call and an empty result show no
    result section. *)
Theorem generic_tool_call_sections (now : Z) (tc : Llama.ToolCall)
    (r : option Llama.ToolResponse) (ds : Perses.DatasourceSelector) :
  Llama.tool_name tc ≠ "execute_range_query" →
  ∃ t, Components.Message (toolMessage now tc r) ds
       = inr (Components.ToolElement (Components.GenericToolCall_of t))
     ∧ Components.caption (Components.GenericToolCall t) = "Tool: " +:+ Llama.tool_name tc
     ∧ Components.arguments_shown (Components.GenericToolCall t)
       = (if bool_decide (Llama.arguments tc = ∅) then None else Some (Llama.arguments tc))
     ∧ Components.result_shown (Components.GenericToolCall t)
       = match r with
         | Some response =>
             if bool_decide (Llama.response_content response = "") then None
             else Some (Llama.response_content response)
         | None => None
         end.
Proof.
  intros Hname. rewrite Message_toolMessage. unfold Components.ToolCall. simpl.
  rewrite bool_decide_false by done. eexists. split; [done|].
  unfold Components.GenericToolCall. simpl. split; [done|]. split.
  - case_bool_decide as Hsize.
    + rewrite bool_decide_false; [done|].
      intros Hempty. rewrite Hempty, map_size_empty in Hsize. lia.
    + rewrite bool_decide_true; [done|]. apply map_size_empty_iff. lia.
  - destruct r as [response|]; simpl; [|done].
    case_bool_decide as Hne; [by rewrite bool_decide_false | by rewrite bool_decide_true by naive_solver].
Qed.

Lemma generic_tool_call_sections_witness :
  ∃ t, Components.Message
         (toolMessage 1000
            {| Llama.call_id := Some "c7"; Llama.tool_name := "list_metrics";
               Llama.arguments := ∅ |} None)
         {| Perses.kind := "PrometheusDatasource"; Perses.name := None |}
       = inr (Components.ToolElement (Components.GenericToolCall_of t))
     ∧ Components.result_shown (Components.GenericToolCall t) = None.
Proof.
  destruct (generic_tool_call_sections 1000
              {| Llama.call_id := Some "c7"; Llama.tool_name := "list_metrics";
                 Llama.arguments := ∅ |} None
              {| Perses.kind := "PrometheusDatasource"; Perses.name := None |})
    as (t & Hrender & _ & _ & Hresult).
  - discriminate.
  - exists t. split; [exact Hrender | exact Hresult].
Defined.

(** X23: rendering a reachable store never reads a property of
    [undefined]: every message of role [tool] in it carries its tool call, so
    the only exception [Message] can raise on it is the [ReferenceError] of a
    range query without time range. *)
Theorem reachable_store_renders_without_TypeError (t : Z) (messages : list ChatMessage)
    (ds : Perses.DatasourceSelector) (m : ChatMessage) :
  reachable t messages → m ∈ messages →
  Components.Message m ds ≠ inl Components.TypeError_undefined.
Proof.
  intros Hreach Hm.
  pose proof (reachable_built t messages Hreach) as Hbuilt.
  rewrite Forall_forall in Hbuilt. specialize (Hbuilt m Hm).
  unfold built_by_component in Hbuilt. unfold Components.Message.
  destruct (toolCall m) as [tcall|] eqn:Hcall.
  - destruct Hbuilt as (-> & _). simpl.
    unfold Components.ToolCall.
    destruct (bool_decide (toolName tcall = "execute_range_query")); [|discriminate].
    destruct (truthy (args tcall !! "start") && truthy (args tcall !! "end"));
      discriminate.
  - destruct Hbuilt as [-> | ->]; simpl; done.
Qed.

(** The tool message of a reachable store: it carries its call, and what its
    render raises is the [ReferenceError] of a range query without its time
    range. *)
Lemma reachable_store_renders_without_TypeError_witness :
  reachable 3000 sample.conversation
  ∧ sample.conversation !! 1
    = Some (toolMessage 3000 (sample.call "c1") (Some (sample.response "c1" "42")))
  ∧ Components.Message
      (toolMessage 3000 (sample.call "c1") (Some (sample.response "c1" "42")))
      {| Perses.kind := "PrometheusDatasource"; Perses.name := None |}
    = inl Components.ReferenceError_duration
  ∧ Components.Message
      (toolMessage 3000 (sample.call "c1") (Some (sample.response "c1" "42")))
      {| Perses.kind := "PrometheusDatasource"; Perses.name := None |}
    ≠ inl Components.TypeError_undefined.
Proof.
  split; [apply conversation_reachable|]. split; [reflexivity|]. split; [reflexivity|].
  apply (reachable_store_renders_without_TypeError 3000 sample.conversation
           {| Perses.kind := "PrometheusDatasource"; Perses.name := None |}
           (toolMessage 3000 (sample.call "c1") (Some (sample.response "c1" "42")))
           conversation_reachable).
  apply elem_of_cons. right. apply elem_of_cons. left. reflexivity.
Defined.

(** ** The keys of the rendered messages *)

Lemma app_cons (c : ascii) (a b : string) : String c a +:+ b = String c (a +:+ b).
Proof. done. Qed.

Lemma digits_have_no_dash (d : Decimal.uint) (x y : string) :
  NilZero.string_of_uint d ≠ x +:+ String "-" y.
Proof.
  assert (∀ d x, NilEmpty.string_of_uint d ≠ x +:+ String "-" y) as Hempty.
  { clear. induction d as [|d IH|d IH|d IH|d IH|d IH|d IH|d IH|d IH|d IH|d IH];
      intros [|c x]; simpl; try discriminate;
      rewrite app_cons; intros [= _ Hrest]; by apply IH in Hrest. }
  destruct d; try apply Hempty.
  destruct x as [|c [|c' x]]; simpl; discriminate.
Qed.

(** A string is cut at its last dash in one way only. *)
Lemma last_dash_unique (a b s1 s2 : string) :
  (∀ x y, s1 ≠ x +:+ String "-" y) → (∀ x y, s2 ≠ x +:+ String "-" y) →
  a +:+ String "-" s1 = b +:+ String "-" s2 → a = b ∧ s1 = s2.
Proof.
  intros Hs1 Hs2. revert b.
  induction a as [|c a IH]; intros [|c' b]; rewrite ?app_cons; simpl.
  - by intros [= ->].
  - intros [= <- Hrest]. by apply Hs1 in Hrest.
  - intros [= -> Hrest]. symmetry in Hrest. by apply Hs2 in Hrest.
  - intros [= -> Hrest]. apply IH in Hrest as [-> ->]. done.
Qed.

Lemma index_digits_inj (i j : nat) :
  NilZero.string_of_uint (Nat.to_uint i) = NilZero.string_of_uint (Nat.to_uint j) → i = j.
Proof.
  intros Heq.
  assert (∀ d, option_map Nat.of_uint (NilZero.uint_of_string (NilZero.string_of_uint d))
               = Some (Nat.of_uint d)) as Hback.
  { intros d. destruct (NilZero.usu_gen d) as [-> | Hzero]; [done|].
    destruct d; try (rewrite NilZero.usu by discriminate; done). done. }
  pose proof (Hback (Nat.to_uint i)) as Hi. rewrite Heq, Hback in Hi.
  rewrite !DecimalNat.Unsigned.of_to in Hi. congruence.
Qed.

Lemma Number_toString_inj (a b : Z) :
  Components.Number_toString a = Components.Number_toString b → a = b.
Proof.
  unfold Components.Number_toString. intros Heq.
  assert (∀ d, option_map Z.of_int (NilZero.int_of_string (NilZero.string_of_int d))
               = Some (Z.of_int d)) as Hback.
  { intros [d|d]; destruct d; try (rewrite NilZero.isi by discriminate; done); done. }
  pose proof (Hback (Z.to_int a)) as Ha. rewrite Heq, Hback in Ha.
  rewrite !DecimalZ.of_to in Ha. congruence.
Qed.

Lemma key_inj (m m' : ChatMessage) (i j : nat) :
  Components.key m i = Components.key m' j ↔ createdAt m = createdAt m' ∧ i = j.
Proof.
  unfold Components.key. split; [|by intros [-> ->]].
  intros [Hstamp Hindex]%last_dash_unique; try apply digits_have_no_dash.
  split; [by apply Number_toString_inj | by apply index_digits_inj].
Qed.

Lemma Messages_key_lookup (messages : list ChatMessage) (ds : Perses.DatasourceSelector)
    (i : nat) :
  (Components.Messages messages ds).*1 !! i
  = (λ m, Components.key m i) <$> messages !! i.
Proof.
  unfold Components.Messages. rewrite list_lookup_fmap, list_lookup_imap.
  by destruct (messages !! i).
Qed.

(** X24: the keys of one render are pairwise distinct, whatever the store
    (equal timestamps included), and two keys are equal exactly when both the
    timestamp and the index are. *)
Theorem message_keys_are_distinct (messages : list ChatMessage)
    (ds : Perses.DatasourceSelector) :
  NoDup (Components.Messages messages ds).*1
  ∧ ∀ m m' i j,
      Components.key m i = Components.key m' j ↔ createdAt m = createdAt m' ∧ i = j.
Proof.
  split; [|apply key_inj].
  apply NoDup_alt. intros i j k Hi Hj.
  rewrite Messages_key_lookup in Hi, Hj.
  destruct (messages !! i) as [mi|]; [|done].
  destruct (messages !! j) as [mj|]; [|done].
  simpl in Hi, Hj. injection Hi as <-. injection Hj as Hj.
  by apply key_inj in Hj as [_ ?].
Qed.

(** X25: which keys a reduction keeps.  A text delta or [turn_complete]
    keeps the key of every message already in the store, so the mounted
    components keep their state; an in-place update of a tool message keeps its
    key only if it happens within the second the message was stamped with, and
    otherwise gives the message a new key, which remounts its panel. *)
Theorem keys_after_reduction (now : Z) (messages : list ChatMessage)
    (ds : Perses.DatasourceSelector) :
  (∀ u, (Components.Messages messages ds).*1
        `prefix_of` (Components.Messages (updateChunk now messages u) ds).*1)
  ∧ (∀ tc r i m,
       messages !! i = Some m → has_callId (Llama.call_id tc) m = true →
       (∀ j y, j < i → messages !! j = Some y → has_callId (Llama.call_id tc) y = false) →
       ∃ k', (Components.Messages (addToolResponse now messages tc r) ds).*1 !! i = Some k'
           ∧ (k' = Components.key m i ↔ createdAt m = seconds now)).
Proof.
  split.
  - intros u.
    assert (∀ l1 l2 : list ChatMessage,
              length l1 ≤ length l2 →
              (∀ i x, l1 !! i = Some x → ∃ y, l2 !! i = Some y ∧ createdAt y = createdAt x) →
              (Components.Messages l1 ds).*1 `prefix_of` (Components.Messages l2 ds).*1)
      as Hprefix.
    { intros l1 l2 Hlen Hsame.
      exists (drop (length l1) (Components.Messages l2 ds).*1).
      rewrite <- (take_drop (length l1) (Components.Messages l2 ds).*1) at 1.
      f_equal. apply list_eq. intros i.
      destruct (decide (i < length l1)) as [Hi | Hi].
      - rewrite lookup_take_lt by done. rewrite !Messages_key_lookup.
        destruct (lookup_lt_is_Some_2 l1 i Hi) as [x Hx].
        destruct (Hsame i x Hx) as (y & Hy & Hstamp).
        rewrite Hx, Hy. simpl. f_equal. apply key_inj. done.
      - rewrite lookup_take_ge by lia.
        rewrite Messages_key_lookup.
        rewrite (proj2 (lookup_ge_None l1 i)) by lia. done. }
    apply Hprefix; [apply updateChunk_length|].
    intros i x Hx.
    destruct (updateChunk_cases now messages u)
      as [(before & m & c & -> & _ & ->) | [c ->]].
    + apply lookup_snoc_Some in Hx as [[Hlt Hx] | [-> <-]].
      * exists x. by rewrite lookup_app_l.
      * eexists. by rewrite list_lookup_middle.
    + exists x. split; [by apply lookup_app_l_Some | done].
  - intros tc r i m Hi Hm Hfirst.
    rewrite (addToolResponse_at_first now messages tc r i m Hi Hm Hfirst).
    rewrite Messages_key_lookup.
    rewrite list_lookup_insert_eq by (by eapply lookup_lt_Some). simpl.
    eexists. split; [done|]. rewrite key_inj. simpl.
    split; [by intros [? _] | by intros ->].
Qed.

Lemma keys_after_reduction_witness :
  ∃ k', (Components.Messages
           (addToolResponse 3000 sample.pending_then_text (sample.call "c1")
              (Some (sample.response "c1" "42")))
           {| Perses.kind := "PrometheusDatasource"; Perses.name := None |}).*1 !! 0
        = Some k'
      ∧ k' ≠ Components.key (toolMessage 1000 (sample.call "c1") None) 0.
Proof.
  destruct (proj2 (keys_after_reduction 3000 sample.pending_then_text
                     {| Perses.kind := "PrometheusDatasource"; Perses.name := None |})
              (sample.call "c1") (Some (sample.response "c1" "42")) 0
              (toolMessage 1000 (sample.call "c1") None) eq_refl eq_refl)
    as (k' & Hk' & Hsame).
  - intros j y Hj. inversion Hj.
  - exists k'. split; [exact Hk'|].
    intros Heq. apply Hsame in Heq. revert Heq. vm_compute. discriminate.
Defined.

(** ** api.ts: the URL of a turn *)

Lemma urldecoded_block (c : ascii) (tail : string) :
  Client.urldecoded
    ((if Ascii.eqb c " " then "+"
      else if Client.unreserved c then String c ""
      else Client.percent_encode c) +:+ tail)
  = String c (Client.urldecoded tail).
Proof.
  destruct c as [b0 b1 b2 b3 b4 b5 b6 b7].
  destruct b0, b1, b2, b3, b4, b5, b6, b7; reflexivity.
Qed.

Lemma urldecoded_urlencoded (s : string) : Client.urldecoded (Client.urlencoded s) = s.
Proof.
  induction s as [|c rest IH]; [done|].
  change (Client.urlencoded (String c rest))
    with ((if Ascii.eqb c " " then "+"
           else if Client.unreserved c then String c ""
           else Client.percent_encode c) +:+ Client.urlencoded rest).
  by rewrite urldecoded_block, IH.
Qed.

Lemma every_char_app (p : ascii → bool) (a b : string) :
  every_char p (a +:+ b) = every_char p a && every_char p b.
Proof.
  induction a as [|c a IH]; [done|].
  rewrite app_cons. simpl. by rewrite IH, andb_assoc.
Qed.

Lemma serialized_block (c : ascii) :
  every_char serialized_char
    (if Ascii.eqb c " " then "+"
     else if Client.unreserved c then String c ""
     else Client.percent_encode c) = true.
Proof.
  destruct c as [b0 b1 b2 b3 b4 b5 b6 b7].
  destruct b0, b1, b2, b3, b4, b5, b6, b7; reflexivity.
Qed.

Lemma USVString_ascii (units : list N) :
  Forall (λ u, (u < 128)%N) units → Client.USVString units ≫= Client.utf8 = units.
Proof.
  induction 1 as [|u rest Hu _ IH]; [done|].
  assert (Client.USVString (u :: rest) = u :: Client.USVString rest) as ->.
  { simpl.
    assert (Client.high_surrogate u = false) as ->
      by (apply andb_false_intro1, N.leb_gt; lia).
    assert (Client.low_surrogate u = false) as ->
      by (apply andb_false_intro1, N.leb_gt; lia).
    done. }
  assert (Client.utf8 u = [u]) as Hu8.
  { unfold Client.utf8. by assert ((u <? 0x80)%N = true) as -> by (apply N.ltb_lt; lia). }
  change ((u :: Client.USVString rest) ≫= Client.utf8)
    with (Client.utf8 u ++ Client.USVString rest ≫= Client.utf8).
  by rewrite Hu8, IH.
Qed.

(** For a string of ASCII characters the bytes are the code units. *)
Lemma bytes_of_ascii (units : list N) :
  Forall (λ u, (u < 128)%N) units →
  list_ascii_of_string (Client.bytes_of units) = ascii_of_N <$> units.
Proof.
  intros Hascii. unfold Client.bytes_of.
  by rewrite list_ascii_of_string_of_list_ascii, USVString_ascii.
Qed.

Lemma bytes_of_ascii_inj (units1 units2 : list N) :
  Forall (λ u, (u < 128)%N) units1 → Forall (λ u, (u < 128)%N) units2 →
  Client.bytes_of units1 = Client.bytes_of units2 → units1 = units2.
Proof.
  intros H1 H2 Heq.
  assert (ascii_of_N <$> units1 = ascii_of_N <$> units2) as Hbytes
    by (by rewrite <- !bytes_of_ascii, Heq).
  clear Heq. revert units2 H2 Hbytes.
  induction H1 as [|u rest Hu _ IH]; intros [|v rest'] H2 Heq; simplify_eq/=; [done|].
  apply Forall_cons in H2 as [Hv Hrest]. f_equal; [|by apply IH].
  rewrite <- (N_ascii_embedding u), <- (N_ascii_embedding v) by lia. congruence.
Qed.

Lemma turnCreate_path_inj (sessionId bytes1 bytes2 : string)
    (message1 message2 : option string) :
  Client.path (Client.turnCreate sessionId bytes1 message1)
  = Client.path (Client.turnCreate sessionId bytes2 message2) → bytes1 = bytes2.
Proof.
  unfold Client.turnCreate, Client.URLSearchParams_toString. simpl.
  intros Heq. repeat apply (inj (String.app _)) in Heq.
  by rewrite <- (urldecoded_urlencoded bytes1), Heq, urldecoded_urlencoded.
Qed.

(** X26: what the URL of a turn tells about the datasource path.  The
    serialized value decodes back to the bytes it was made from, so two
    request paths of one session are equal exactly when the datasource paths
    have the same bytes.  Two different datasource paths of ASCII characters
    therefore never give the same request path.  Two paths that differ in a
    surrogate without partner do: [\uD800] and [\uFFFD] are sent alike. *)
Theorem turnCreate_path_determines_datasource (sessionId : string)
    (path1 path2 : list N) (message1 message2 : option string) :
  Client.urldecoded (Client.urlencoded (Client.bytes_of path1)) = Client.bytes_of path1
  ∧ (Client.path (Client.turnCreate sessionId (Client.bytes_of path1) message1)
     = Client.path (Client.turnCreate sessionId (Client.bytes_of path2) message2)
     ↔ Client.bytes_of path1 = Client.bytes_of path2)
  ∧ (Forall (λ u, (u < 128)%N) path1 → Forall (λ u, (u < 128)%N) path2 →
     path1 ≠ path2 →
     Client.path (Client.turnCreate sessionId (Client.bytes_of path1) message1)
     ≠ Client.path (Client.turnCreate sessionId (Client.bytes_of path2) message2))
  ∧ Client.path (Client.turnCreate sessionId (Client.bytes_of [0xD800%N]) message1)
    = Client.path (Client.turnCreate sessionId (Client.bytes_of [0xFFFD%N]) message1).
Proof.
  split; [apply urldecoded_urlencoded|]. split; [|split; [|done]].
  - split; [apply turnCreate_path_inj|]. intros Heq.
    unfold Client.turnCreate. simpl. by rewrite Heq.
  - intros H1 H2 Hne Heq. apply Hne.
    apply turnCreate_path_inj in Heq. by apply bytes_of_ascii_inj.
Qed.

(** A space is sent as [+] and a plus sign as [%2B]: the two paths stay
    apart. *)
Lemma turnCreate_path_determines_datasource_witness :
  Client.path (Client.turnCreate "s" (Client.bytes_of (Client.code_units "/proxy/a b"))
                 (Some "Hello"))
  = "/session/s/turn?datasource_path=%2Fproxy%2Fa+b"
  ∧ Client.path (Client.turnCreate "s" (Client.bytes_of (Client.code_units "/proxy/a+b"))
                   (Some "Hello"))
    = "/session/s/turn?datasource_path=%2Fproxy%2Fa%2Bb"
  ∧ Client.path (Client.turnCreate "s" (Client.bytes_of (Client.code_units "/proxy/a b"))
                   (Some "Hello"))
    ≠ Client.path (Client.turnCreate "s" (Client.bytes_of (Client.code_units "/proxy/a+b"))
                     (Some "Hello")).
Proof.
  split; [reflexivity|]. split; [reflexivity|].
  apply (proj1 (proj2 (proj2 (turnCreate_path_determines_datasource "s"
                                (Client.code_units "/proxy/a b")
                                (Client.code_units "/proxy/a+b")
                                (Some "Hello") (Some "Hello"))))).
  - vm_compute. repeat (apply Forall_cons; split; [reflexivity|]). apply Forall_nil_2.
  - vm_compute. repeat (apply Forall_cons; split; [reflexivity|]). apply Forall_nil_2.
  - vm_compute. discriminate.
Defined.

(** Beyond ASCII: a pair of surrogates is one code point of four bytes. *)
Example bytes_of_a_surrogate_pair :
  Client.USVString [0x48%N; 0xE9%N; 0x20AC%N; 0xD83D%N; 0xDE00%N] ≫= Client.utf8
  = [0x48; 0xC3; 0xA9; 0xE2; 0x82; 0xAC; 0xF0; 0x9F; 0x98; 0x80]%N
  ∧ Client.urlencoded (Client.bytes_of [0xD83D%N; 0xDE00%N]) = "%F0%9F%98%80"
  ∧ Client.urlencoded (Client.bytes_of [0xD800%N]) = "%EF%BF%BD".
Proof. by vm_compute. Qed.

(** X27: the datasource path cannot break out of its query parameter.
    The path of a turn request is the session path followed by the single
    parameter [datasource_path]; and whatever the datasource path contains, its
    serialized form consists of ASCII letters, digits, [*], [-], [.], [_],
    [%] and [+] only, so no [&], [=], [#], [?], [/] or space of it reaches the
    URL. *)
Theorem serialized_datasource_path_is_inert (sessionId datasourcePath : string)
    (message : option string) :
  Client.path (Client.turnCreate sessionId datasourcePath message)
  = "/session/" +:+ sessionId +:+ "/turn?datasource_path="
    +:+ Client.urlencoded datasourcePath
  ∧ every_char serialized_char (Client.urlencoded datasourcePath) = true
  ∧ Forall (λ c, serialized_char c = false) ["&"; "="; "#"; "?"; "/"; " "]%char.
Proof.
  split; [reflexivity|]. split; [|by repeat constructor].
  induction datasourcePath as [|c rest IH]; [done|].
  change (Client.urlencoded (String c rest))
    with ((if Ascii.eqb c " " then "+"
           else if Client.unreserved c then String c ""
           else Client.percent_encode c) +:+ Client.urlencoded rest).
  by rewrite every_char_app, serialized_block, IH.
Qed.

(** The request of the repository's own test of [turnCreate]. *)
Example turnCreate_request_of_the_test :
  Client.turnCreate "test-session" "/proxy/globaldatasources/prometheus" (Some "Hello")
  = {| Client.method := Client.POST;
       Client.path :=
         "/session/test-session/turn?datasource_path=%2Fproxy%2Fglobaldatasources%2Fprometheus";
       Client.body := Some (Some "Hello");
       Client.stream := true |}.
Proof. reflexivity. Qed.

(** ** test-utils.tsx: a stream response is used up *)

Lemma for_await_drains (chunks : list Llama.AgentTurnResponseStreamChunk)
    (fuel index : nat) :
  length chunks - index < fuel →
  testUtils.for_await fuel chunks index
  = Some (drop index chunks, max index (length chunks)).
Proof.
  revert index. induction fuel as [|fuel IH]; intros index Hfuel; [lia|].
  simpl. unfold testUtils.next. case_bool_decide as Hin.
  - destruct (lookup_lt_is_Some_2 chunks index Hin) as [c Hc]. rewrite Hc.
    rewrite IH by lia. rewrite (drop_S _ _ _ Hc). do 2 f_equal. lia.
  - rewrite drop_ge by lia. do 2 f_equal. lia.
Qed.

(** X28: a response made by [createStreamResponse] can be consumed once.
    The first [for await] loop receives every chunk, in order, after one call
    of [next()] per chunk and one more; because the position belongs to the
    response and not to the iterator, every later loop over the same response
    receives nothing. *)
Theorem createStreamResponse_is_used_up
    (chunks : list Llama.AgentTurnResponseStreamChunk) :
  testUtils.for_await (S (length chunks)) chunks 0 = Some (chunks, length chunks)
  ∧ ∀ fuel, testUtils.for_await (S fuel) chunks (length chunks)
            = Some ([], length chunks).
Proof.
  split.
  - by rewrite for_await_drains by lia.
  - intros fuel. rewrite for_await_drains by lia.
    by rewrite drop_all, Nat.max_id.
Qed.
